(** * librosa.effects: harmonic/percussive separation, time stretching,
      pitch shifting and remixing

    A shallow embedding of [librosa/effects.py].  The functions of that
    module are thin orchestrators over services that live elsewhere
    (the transform, the decomposition, the phase vocoder, the resampler,
    the audio validator, the zero-crossing detector); these are taken as
    an interface, [Services], and every call to them is recorded in a
    call log, so that statements such as "nothing is computed before the
    error" or "the detector runs once" can be written down.

    What the module does itself is numpy list surgery: slicing along the
    time axis, and concatenation.  These are modelled on lists, with the
    index adjustment of Python slices written out.

    The [@cache] decorator memoises results across calls; every
    definition below is the body of the decorated function, that is the
    behaviour of a call that misses the cache. *)

From Stdlib Require Import List ZArith Lia Bool QArith Qround Sorted.
Import ListNotations.

Local Open Scope Z_scope.

(** ** Exceptions and results *)

(** The Python exceptions that can leave a function of the module. *)
Inductive exn : Type :=
| ParameterError      (* librosa's usage error *)
| ValueError
| IndexError
| ZeroDivisionError
| OverflowError
| ComputationError.   (* a failure inside an external service *)

Inductive result (A : Type) : Type :=
| Ok (a : A)
| Raise (e : exn).

Arguments Ok {A} a.
Arguments Raise {A} e.

(** ** Python slices on one axis *)

(** The adjustment of one bound of [slice(start, stop)] against an axis
    of length [n] (step 1): a negative bound counts from the end and is
    floored at 0, a bound past the end is the end. *)
Definition adjust_index (n i : Z) : Z :=
  if i <? 0 then (if i + n <? 0 then 0 else i + n)
  else if n <=? i then n else i.

(** Number of elements selected by [start:stop] on an axis of length [n]. *)
Definition slice_len (n : nat) (start stop : Z) : nat :=
  Z.to_nat (adjust_index (Z.of_nat n) stop - adjust_index (Z.of_nat n) start).

(** [l[start:stop]] *)
Definition slice_list {A : Type} (l : list A) (start stop : Z) : list A :=
  firstn (slice_len (length l) start stop)
         (skipn (Z.to_nat (adjust_index (Z.of_nat (length l)) start)) l).

(** [np.nonzero(b)[-1]] for a one-dimensional boolean array [b]: the
    indices of the true entries, in increasing order. *)
Fixpoint nonzero_from (i : Z) (b : list bool) : list Z :=
  match b with
  | [] => []
  | x :: b' => if x then i :: nonzero_from (i + 1) b'
               else nonzero_from (i + 1) b'
  end.

Definition nonzero (b : list bool) : list Z := nonzero_from 0 b.

(** Elementwise combination of two lists of rows. *)
Fixpoint map2 {A B C : Type} (f : A -> B -> C) (l : list A) (m : list B) : list C :=
  match l, m with
  | a :: l', b :: m' => f a b :: map2 f l' m'
  | _, _ => []
  end.

(** ** Nearest-event matching *)

(** Modelled from the spec: [librosa.util.match_events] is not among the
    sources.  For one query [q] and the candidates [C] the matcher gives
    the position in [C] of a candidate at the least distance from [q];
    of two candidates at the same distance the earlier one is kept
    (the smaller one, when [C] is sorted).  On no candidates there is
    no answer. *)
Fixpoint nearest_event (q : Z) (C : list Z) : option nat :=
  match C with
  | [] => None
  | c :: C' =>
      match nearest_event q C' with
      | None => Some 0%nat
      | Some j =>
          if Z.abs (c - q) <=? Z.abs (nth j C' 0 - q) then Some 0%nat
          else Some (S j)
      end
  end.

(** Modelled from the spec: [match_events(events_from, events_to)]
    matches each query on its own; it fails when there is no
    candidate. *)
Fixpoint match_events (events_from events_to : list Z) : result (list nat) :=
  match events_from with
  | [] => match events_to with [] => Raise ValueError | _ => Ok [] end
  | q :: rest =>
      match nearest_event q events_to with
      | None => Raise ValueError
      | Some i =>
          match match_events rest events_to with
          | Ok out => Ok (i :: out)
          | Raise e => Raise e
          end
      end
  end.

(** ** Audio buffers *)

Section Buffers.

Variable sample : Type.

(** An audio buffer is a one-dimensional array of shape [(t,)] or a
    two-dimensional one of shape [(channels, t)]; the second carries
    its time length, as a numpy shape does, also when it has no
    row. *)
Inductive AudioBuffer : Type :=
| Mono (samples : list sample)
| Multi (t : nat) (channels : list (list sample)).

Definition ndim (y : AudioBuffer) : nat :=
  match y with Mono _ => 1%nat | Multi _ _ => 2%nat end.

Definition time_len (y : AudioBuffer) : nat :=
  match y with Mono l => length l | Multi t _ => t end.

Definition n_channels (y : AudioBuffer) : nat :=
  match y with Mono _ => 1%nat | Multi _ rows => length rows end.

(** The rows of samples along the time axis. *)
Definition rows_of (y : AudioBuffer) : list (list sample) :=
  match y with Mono l => [l] | Multi _ rows => rows end.

(** The shape of a two-dimensional buffer is coherent: every row has
    the time length. *)
Definition well_shaped (y : AudioBuffer) : Prop :=
  Forall (fun r => length r = time_len y) (rows_of y).

(** One item of an index list. *)
Inductive index_item : Type :=
| IEllipsis
| ISlice (start stop : Z).

(** [clip[-1] = x] *)
Fixpoint set_last (clip : list index_item) (x : index_item)
  : result (list index_item) :=
  match clip with
  | [] => Raise IndexError
  | [_] => Ok [x]
  | i :: clip' =>
      match set_last clip' x with
      | Ok c => Ok (i :: c)
      | Raise e => Raise e
      end
  end.

(** [y[clip]]: an index list holding slices and ellipses is read by
    numpy as the index tuple; the two shapes the module builds are
    [y[a:b]] on one axis and [y[..., a:b]] on two. *)
Definition getitem (y : AudioBuffer) (clip : list index_item)
  : result AudioBuffer :=
  match y, clip with
  | Mono l, [ISlice a b] => Ok (Mono (slice_list l a b))
  | Multi t rows, [IEllipsis; ISlice a b] =>
      Ok (Multi (slice_len t a b) (map (fun r => slice_list r a b) rows))
  | _, _ => Raise IndexError
  end.

(** Joining two arrays along the last axis. *)
Definition concat2 (a b : AudioBuffer) : result AudioBuffer :=
  match a, b with
  | Mono x, Mono z => Ok (Mono (x ++ z))
  | Multi t1 r1, Multi t2 r2 =>
      if Nat.eqb (length r1) (length r2)
      then Ok (Multi (t1 + t2) (map2 (@app sample) r1 r2))
      else Raise ValueError
  | _, _ => Raise ValueError
  end.

Fixpoint concatenate_from (acc : AudioBuffer) (l : list AudioBuffer)
  : result AudioBuffer :=
  match l with
  | [] => Ok acc
  | b :: l' =>
      match concat2 acc b with
      | Ok acc' => concatenate_from acc' l'
      | Raise e => Raise e
      end
  end.

(** [np.concatenate(arrays, axis=-1)]: an empty sequence of arrays is
    refused. *)
Definition concatenate (arrays : list AudioBuffer) : result AudioBuffer :=
  match arrays with
  | [] => Raise ValueError
  | b :: l => concatenate_from b l
  end.

(** Modelled from the spec: [librosa.util.fix_length] is not among the
    sources.  It truncates the time axis, or pads it with zeros, to
    exactly [n] samples. *)
Definition fix_length (zero : sample) (y : list sample) (n : nat) : list sample :=
  firstn n y ++ repeat zero (n - length y).

End Buffers.

Arguments Mono {sample} samples.
Arguments Multi {sample} t channels.
Arguments ndim {sample} y.
Arguments time_len {sample} y.
Arguments n_channels {sample} y.
Arguments rows_of {sample} y.
Arguments well_shaped {sample} y.
Arguments getitem {sample} y clip.
Arguments concat2 {sample} a b.
Arguments concatenate_from {sample} acc l.
Arguments concatenate {sample} arrays.
Arguments fix_length {sample} zero y n.

(** ** The external services and the call log *)

(** The collaborators of the module, as an interface.  [sample] is the
    type of one audio sample, [spectrogram] the opaque time-frequency
    matrix, [scalar] the floating-point numbers that rates and sampling
    frequencies are, [dtype] the sample representations.  Every service
    may raise.  The three arithmetic operations are those of Python
    floats, which raise on a zero divisor and on overflow. *)
Class Services (sample spectrogram scalar dtype : Type) : Type := {
  zero_sample : sample;
  dtype_of : list sample -> dtype;                              (* y.dtype *)
  stft : list sample -> result spectrogram;
  istft : spectrogram -> dtype -> result (list sample);
  decompose_hpss : spectrogram -> result (spectrogram * spectrogram);
  phase_vocoder : spectrogram -> scalar -> result spectrogram;
  resample : list sample -> scalar -> scalar -> result (list sample);
  valid_audio : AudioBuffer sample -> bool -> result unit;
  to_mono : AudioBuffer sample -> result (list sample);
  zero_crossings : list sample -> result (list bool);
  float_neg : scalar -> scalar;                                 (* -x *)
  float_div : scalar -> scalar -> result scalar;                (* x / y *)
  float_pow2 : scalar -> result scalar                          (* 2.0 ** x *)
}.

Section Effects.

Context {sample spectrogram scalar dtype : Type}.
Context {svc : Services sample spectrogram scalar dtype}.

(** One entry of the call log: a call into [librosa.core],
    [librosa.decompose] or [librosa.util], with its arguments. *)
Inductive call : Type :=
| call_stft (y : list sample)
| call_istft (s : spectrogram) (d : dtype)
| call_decompose_hpss (s : spectrogram)
| call_phase_vocoder (s : spectrogram) (rate : scalar)
| call_resample (y : list sample) (orig_sr target_sr : scalar)
| call_fix_length (y : list sample) (n : nat)
| call_valid_audio (y : AudioBuffer sample) (mono : bool)
| call_to_mono (y : AudioBuffer sample)
| call_zero_crossings (y : list sample)
| call_match_events (events_from events_to : list Z).

(** A computation gives a value or raises, and leaves the log of the
    calls it made, oldest first. *)
Definition M (A : Type) : Type := (result A * list call)%type.

Definition ret {A : Type} (a : A) : M A := (Ok a, []).

Definition bind {A B : Type} (m : M A) (f : A -> M B) : M B :=
  match m with
  | (Ok a, log) => let (r, log') := f a in (r, log ++ log')
  | (Raise e, log) => (Raise e, log)
  end.

(** An outcome computed without any call: Python's own arithmetic and
    numpy's indexing. *)
Definition lift {A : Type} (r : result A) : M A := (r, []).

(** A call [c] whose outcome is [r]. *)
Definition invoke {A : Type} (c : call) (r : result A) : M A := (r, [c]).

Definition outcome {A : Type} (m : M A) : result A := fst m.
Definition call_log {A : Type} (m : M A) : list call := snd m.

Notation "x <- m ;; k" := (bind m (fun x => k))
  (at level 61, m at next level, right associativity).
Notation "m ;;; k" := (bind m (fun _ => k))
  (at level 61, right associativity).

(** *** hpss, harmonic, percussive *)

Definition hpss (y : list sample) : M (list sample * list sample) :=
  (* Compute the STFT matrix *)
  s <- invoke (call_stft y) (stft y) ;;
  (* Decompose into harmonic and percussives *)
  hp <- invoke (call_decompose_hpss s) (decompose_hpss s) ;;
  let (stft_harm, stft_perc) := (hp : spectrogram * spectrogram) in
  (* Invert the STFTs.  Adjust length to match the input. *)
  yh <- invoke (call_istft stft_harm (dtype_of y)) (istft stft_harm (dtype_of y)) ;;
  y_harm <- invoke (call_fix_length yh (length y))
                   (Ok (fix_length zero_sample yh (length y))) ;;
  yp <- invoke (call_istft stft_perc (dtype_of y)) (istft stft_perc (dtype_of y)) ;;
  y_perc <- invoke (call_fix_length yp (length y))
                   (Ok (fix_length zero_sample yp (length y))) ;;
  ret (y_harm, y_perc).

Definition harmonic (y : list sample) : M (list sample) :=
  s <- invoke (call_stft y) (stft y) ;;
  (* Remove percussives *)
  hp <- invoke (call_decompose_hpss s) (decompose_hpss s) ;;
  let stft_harm := fst (hp : spectrogram * spectrogram) in
  yh <- invoke (call_istft stft_harm (dtype_of y)) (istft stft_harm (dtype_of y)) ;;
  y_harm <- invoke (call_fix_length yh (length y))
                   (Ok (fix_length zero_sample yh (length y))) ;;
  ret y_harm.

Definition percussive (y : list sample) : M (list sample) :=
  s <- invoke (call_stft y) (stft y) ;;
  (* Remove harmonics *)
  hp <- invoke (call_decompose_hpss s) (decompose_hpss s) ;;
  let stft_perc := snd (hp : spectrogram * spectrogram) in
  yp <- invoke (call_istft stft_perc (dtype_of y)) (istft stft_perc (dtype_of y)) ;;
  y_perc <- invoke (call_fix_length yp (length y))
                   (Ok (fix_length zero_sample yp (length y))) ;;
  ret y_perc.

(** *** time_stretch and pitch_shift *)

Definition time_stretch (y : list sample) (rate : scalar) : M (list sample) :=
  (* Construct the stft *)
  s <- invoke (call_stft y) (stft y) ;;
  (* Stretch by phase vocoding *)
  stft_stretch <- invoke (call_phase_vocoder s rate) (phase_vocoder s rate) ;;
  (* Invert the stft *)
  y_stretch <- invoke (call_istft stft_stretch (dtype_of y))
                      (istft stft_stretch (dtype_of y)) ;;
  ret y_stretch.

(** [n_steps], [bins_per_octave] and [sr] are scalars here: the
    conversions [float(n_steps)] and [float(sr)] are the identity on
    them. *)
Definition pitch_shift (y : list sample) (sr n_steps bins_per_octave : scalar)
  : M (list sample) :=
  e <- lift (float_div (float_neg n_steps) bins_per_octave) ;;
  rate <- lift (float_pow2 e) ;;
  (* Stretch in time, then resample *)
  ys <- time_stretch y rate ;;
  orig_sr <- lift (float_div sr rate) ;;
  y_shift <- invoke (call_resample ys orig_sr sr) (resample ys orig_sr sr) ;;
  (* Crop to the same dimension as the input *)
  invoke (call_fix_length y_shift (length y))
         (Ok (fix_length zero_sample y_shift (length y))).

(** The default of [bins_per_octave] is 12; [twelve] is that scalar. *)
Definition pitch_shift_call (twelve : scalar) (y : list sample)
  (sr n_steps : scalar) (bins_per_octave : option scalar) : M (list sample) :=
  pitch_shift y sr n_steps
    (match bins_per_octave with Some b => b | None => twelve end).

(** *** remix *)

(** An interval is the pair [(start, end)] of sample indices. *)
Definition interval : Type := (Z * Z)%type.

(** The body of the loop for one interval: the interval is snapped when
    [align_zeros] holds, the slice is taken, and appended to [y_out]. *)
Definition remix_step (y : AudioBuffer sample) (align_zeros : bool)
  (zeros : list Z) (clip : list index_item) (iv : interval)
  (y_out : list (AudioBuffer sample))
  : M (list index_item * list (AudioBuffer sample)) :=
  iv' <- (if align_zeros
          then
            idx <- invoke (call_match_events [fst iv; snd iv] zeros)
                          (match_events [fst iv; snd iv] zeros) ;;
            (* zeros[idx] *)
            let snapped := map (fun i => nth i zeros 0) idx in
            ret (nth 0 snapped 0, nth 1 snapped 0)
          else ret iv) ;;
  clip' <- lift (set_last clip (ISlice (fst iv') (snd iv'))) ;;
  piece <- lift (getitem y clip') ;;
  ret (clip', y_out ++ [piece]).

Fixpoint remix_loop (y : AudioBuffer sample) (align_zeros : bool)
  (zeros : list Z) (clip : list index_item) (intervals : list interval)
  (y_out : list (AudioBuffer sample)) : M (list (AudioBuffer sample)) :=
  match intervals with
  | [] => ret y_out
  | iv :: rest =>
      st <- remix_step y align_zeros zeros clip iv y_out ;;
      remix_loop y align_zeros zeros (fst st) rest (snd st)
  end.

Definition remix (y : AudioBuffer sample) (intervals : list interval)
  (align_zeros : bool) : M (AudioBuffer sample) :=
  (* Validate the audio buffer *)
  invoke (call_valid_audio y false) (valid_audio y false) ;;;
  zeros <- (if align_zeros
            then
              y_mono <- invoke (call_to_mono y) (to_mono y) ;;
              zc <- invoke (call_zero_crossings y_mono) (zero_crossings y_mono) ;;
              ret (nonzero zc)
            else ret []) ;;
  let clip := repeat IEllipsis (ndim y) in
  y_out <- remix_loop y align_zeros zeros clip intervals [] ;;
  lift (concatenate y_out).

(** A call of [remix] as the caller writes it: [align_zeros] may be
    left out, and is then [True]. *)
Definition remix_call (y : AudioBuffer sample) (intervals : list interval)
  (align_zeros : option bool) : M (AudioBuffer sample) :=
  remix y intervals (match align_zeros with Some b => b | None => true end).

End Effects.

(** ** A reference instance of the services

    Stand-ins for the external services over rational samples, on which
    the embedding runs on concrete buffers.  The detector and the
    down-mix follow the words of the specification; the transform
    services are the simplest ones that have the shape of the real ones
    (a transform that pads, a vocoder that picks frames at multiples of
    the rate). *)

Module Mock.

Definition Qs (l : list Z) : list Q := map inject_Z l.

(** Modelled from the spec: [librosa.core.to_mono] is not among the
    sources.  A one-dimensional buffer is its own down-mix; a
    multi-channel one is down-mixed by the average of its channels. *)
Definition mock_to_mono (y : AudioBuffer Q) : result (list Q) :=
  match y with
  | Mono l => Ok l
  | Multi t rows =>
      Ok (map (fun s => Qred (s / inject_Z (Z.of_nat (length rows))))
              (fold_right (map2 Qplus) (repeat (0#1) t) rows))
  end.

Definition Qsign (q : Q) : Z := Z.sgn (Qnum q).

Fixpoint sign_changes (prev : Z) (x : list Q) : list bool :=
  match x with
  | [] => []
  | a :: x' => negb (Qsign a =? prev) :: sign_changes (Qsign a) x'
  end.

(** Modelled from the spec: [librosa.core.zero_crossings] is not among
    the sources.  Entry [i] of the answer tells whether
    [sign(x[i]) != sign(x[i-1])]; entry 0 has no predecessor. *)
Definition mock_zero_crossings (x : list Q) : result (list bool) :=
  match x with
  | [] => Ok []
  | a :: x' => Ok (false :: sign_changes (Qsign a) x')
  end.

(** Modelled from the spec: [librosa.util.valid_audio] is not among the
    sources.  The buffer must be one- or two-dimensional (one-dimensional
    when [mono] is asked for) with a coherent shape; rational samples
    are finite. *)
Definition mock_valid_audio (y : AudioBuffer Q) (mono : bool) : result unit :=
  match y with
  | Mono _ => Ok tt
  | Multi t rows =>
      if mono then Raise ParameterError
      else if forallb (fun r => Nat.eqb (length r) t) rows then Ok tt
      else Raise ParameterError
  end.

Definition Zseq (n : nat) : list Z := map Z.of_nat (seq 0 n).

(** The transform pads the signal by two samples; its inverse keeps
    them. *)
Definition mock_stft (y : list Q) : result (list Q) := Ok (y ++ [0#1; 0#1]).
Definition mock_istft (s : list Q) (_ : unit) : result (list Q) := Ok s.
Definition mock_decompose (s : list Q) : result (list Q * list Q) :=
  Ok (s, map Qopp s).

(** Frames are taken at the time steps [0, rate, 2*rate, ...] below the
    number of frames; the step 0 divides by zero, and a negative step
    selects nothing. *)
Definition mock_phase_vocoder (s : list Q) (rate : Q) : result (list Q) :=
  if Qeq_bool rate 0 then Raise ZeroDivisionError
  else if Qle_bool rate 0 then Ok []
  else
    let n := inject_Z (Z.of_nat (length s)) in
    Ok (map (fun k => nth (Z.to_nat (Qfloor (inject_Z k * rate))) s (0#1))
            (Zseq (Z.to_nat (Qceiling (n / rate))))).

Definition mock_resample (y : list Q) (orig_sr target_sr : Q) : result (list Q) :=
  if Qle_bool orig_sr 0 || Qle_bool target_sr 0 then Raise ParameterError
  else
    let n := inject_Z (Z.of_nat (length y)) in
    Ok (map (fun k => nth (Z.to_nat (Qfloor (inject_Z k * orig_sr / target_sr))) y (0#1))
            (Zseq (Z.to_nat (Qceiling (n * target_sr / orig_sr))))).

Definition mock_div (a b : Q) : result Q :=
  if Qeq_bool b 0 then Raise ZeroDivisionError else Ok (Qred (a / b)).

(** [2.0 ** x], exact on the integer exponents the examples use (the
    exponent is rounded down), and out of range from 1024 on. *)
Definition mock_pow2 (x : Q) : result Q :=
  if Qle_bool (1024#1) x then Raise OverflowError
  else Ok (Qred (Qpower (2#1) (Qfloor x))).

#[export] Instance mock_services : Services Q (list Q) Q unit := {
  zero_sample := 0#1;
  dtype_of := fun _ => tt;
  stft := mock_stft;
  istft := mock_istft;
  decompose_hpss := mock_decompose;
  phase_vocoder := mock_phase_vocoder;
  resample := mock_resample;
  valid_audio := mock_valid_audio;
  to_mono := mock_to_mono;
  zero_crossings := mock_zero_crossings;
  float_neg := Qopp;
  float_div := mock_div;
  float_pow2 := mock_pow2
}.

(** The buffer of the remix examples, [[0,1,2,3,4,5]]. *)
Definition ramp : AudioBuffer Q := Mono (Qs [0; 1; 2; 3; 4; 5]).

(** A signal whose zero-crossings are at 3 and 7 only. *)
Definition square : AudioBuffer Q := Mono (Qs [1; 1; 1; -1; -1; -1; -1; 1; 1; 1]).

(** What the detector answers on [square]. *)
Definition zc_square : list bool :=
  [false; false; false; true; false; false; false; true; false; false].


(** Two channels of six samples. *)
Definition stereo : AudioBuffer Q :=
  Multi 6 [Qs [0; 1; 2; 3; 4; 5]; Qs [10; 11; 12; 13; 14; 15]].

(** An inverse transform that fails on a spectrogram whose first entry
    is negative, as the percussive part of [mock_decompose] is for a
    signal that starts positive. *)
Definition flaky_istft (s : list Q) (_ : unit) : result (list Q) :=
  match s with
  | a :: _ => if Qsign a <? 0 then Raise ComputationError else Ok s
  | [] => Ok s
  end.

(** The reference services with the failing inverse transform. *)
Definition flaky_services : Services Q (list Q) Q unit := {|
  zero_sample := 0#1;
  dtype_of := fun _ => tt;
  stft := mock_stft;
  istft := flaky_istft;
  decompose_hpss := mock_decompose;
  phase_vocoder := mock_phase_vocoder;
  resample := mock_resample;
  valid_audio := mock_valid_audio;
  to_mono := mock_to_mono;
  zero_crossings := mock_zero_crossings;
  float_neg := Qopp;
  float_div := mock_div;
  float_pow2 := mock_pow2
|}.

End Mock.


(** ** Notions the statements use *)

(** The specification's rule for the nearest candidate: [z] is a
    candidate of [C], no candidate is nearer to [q], and of the
    candidates as near as [z] it is the smallest. *)
Definition nearest_with_ties_down (C : list Z) (q z : Z) : Prop :=
  In z C /\
  forall c, In c C ->
    Z.abs (z - q) < Z.abs (c - q) \/ (Z.abs (z - q) = Z.abs (c - q) /\ z <= c).

(** The candidate that a boundary [q] is moved to. *)
Definition snap (zeros : list Z) (q : Z) : Z :=
  match nearest_event q zeros with
  | Some i => nth i zeros 0
  | None => 0
  end.

Definition snap_interval (zeros : list Z) (iv : Z * Z) : Z * Z :=
  (snap zeros (fst iv), snap zeros (snd iv)).

(** An interval of the data model: [0 <= start <= end <= n]. *)
Definition in_range (n : nat) (iv : Z * Z) : Prop :=
  0 <= fst iv /\ fst iv <= snd iv /\ snd iv <= Z.of_nat n.

(** Length of an interval. *)
Definition interval_len (iv : Z * Z) : nat := Z.to_nat (snd iv - fst iv).

(** The end-exclusive span of a row, by position. *)
Definition span {A : Type} (r : list A) (iv : Z * Z) : list A :=
  firstn (interval_len iv) (skipn (Z.to_nat (fst iv)) r).

Section Statements.

Context {sample : Type}.

(** [y[..., start:stop]] *)
Definition slice_time (y : AudioBuffer sample) (start stop : Z)
  : AudioBuffer sample :=
  match y with
  | Mono l => Mono (slice_list l start stop)
  | Multi t rows =>
      Multi (slice_len t start stop) (map (fun r => slice_list r start stop) rows)
  end.

(** The specification's remix: the slices of [y] for the intervals, as
    they are listed, one after the other along the time axis. *)
Definition slices_in_order (y : AudioBuffer sample) (ivs : list (Z * Z))
  : AudioBuffer sample :=
  match y with
  | Mono l =>
      Mono (concat (map (fun iv => slice_list l (fst iv) (snd iv)) ivs))
  | Multi t rows =>
      Multi (list_sum (map (fun iv => slice_len t (fst iv) (snd iv)) ivs))
            (map (fun r => concat (map (fun iv => slice_list r (fst iv) (snd iv)) ivs))
                 rows)
  end.

(** The index list that selects a slice of the time axis of [y]. *)
Definition index_for (y : AudioBuffer sample) (x : index_item) : list index_item :=
  match y with
  | Mono _ => [x]
  | Multi _ _ => [IEllipsis; x]
  end.

(** The bounds a slice is taken at: the snapped ones under alignment,
    the given ones otherwise. *)
Definition bounds_used (align_zeros : bool) (zeros : list Z) (iv : Z * Z) : Z * Z :=
  if align_zeros then snap_interval zeros iv else iv.

End Statements.

Section CallCounting.

Context {sample spectrogram scalar dtype : Type}.

Definition is_istft (c : @call sample spectrogram scalar dtype) : bool :=
  match c with call_istft _ _ => true | _ => false end.


Definition is_match_events (c : @call sample spectrogram scalar dtype) : bool :=
  match c with call_match_events _ _ => true | _ => false end.

(** How many calls of a kind a log holds. *)
Definition count_calls (kind : @call sample spectrogram scalar dtype -> bool)
  (log : list (@call sample spectrogram scalar dtype)) : nat :=
  length (filter kind log).

End CallCounting.

(** * Properties *)

(** ** Slices *)

Lemma adjust_index_bounds (n i : Z) :
  0 <= n -> 0 <= adjust_index n i <= n.
Proof.
  intros Hn. unfold adjust_index.
  destruct (i <? 0) eqn:E1.
  - destruct (i + n <? 0) eqn:E2; lia.
  - destruct (n <=? i) eqn:E2; lia.
Qed.

Lemma adjust_index_in_range (n i : Z) :
  0 <= i <= n -> adjust_index n i = i.
Proof.
  intros H. unfold adjust_index.
  destruct (i <? 0) eqn:E1; [lia|].
  destruct (n <=? i) eqn:E2; lia.
Qed.

Lemma adjust_index_past_end (n i : Z) :
  0 <= n -> n <= i -> adjust_index n i = n.
Proof.
  intros Hn H. unfold adjust_index.
  destruct (i <? 0) eqn:E1; [lia|].
  destruct (n <=? i) eqn:E2; lia.
Qed.

Lemma adjust_index_negative (n i : Z) :
  i < 0 -> adjust_index n i = Z.max 0 (i + n).
Proof.
  intros H. unfold adjust_index.
  destruct (i <? 0) eqn:E1; [|lia].
  destruct (i + n <? 0) eqn:E2; lia.
Qed.

Lemma length_slice_list {A : Type} (l : list A) (start stop : Z) :
  length (slice_list l start stop) = slice_len (length l) start stop.
Proof.
  unfold slice_list, slice_len.
  rewrite length_firstn, length_skipn.
  pose proof (adjust_index_bounds (Z.of_nat (length l)) start ltac:(lia)).
  pose proof (adjust_index_bounds (Z.of_nat (length l)) stop ltac:(lia)).
  lia.
Qed.

Lemma slice_len_in_range (n : nat) (iv : Z * Z) :
  in_range n iv -> slice_len n (fst iv) (snd iv) = interval_len iv.
Proof.
  intros (H1 & H2 & H3). unfold slice_len, interval_len.
  rewrite !adjust_index_in_range by lia. reflexivity.
Qed.

Lemma slice_list_in_range {A : Type} (l : list A) (iv : Z * Z) :
  in_range (length l) iv -> slice_list l (fst iv) (snd iv) = span l iv.
Proof.
  intros H. unfold slice_list, span.
  rewrite slice_len_in_range by assumption.
  destruct H as (H1 & H2 & H3).
  rewrite adjust_index_in_range by lia. reflexivity.
Qed.

(** ** The nearest-event matcher *)

Lemma nearest_event_strongly_sorted (q : Z) (C : list Z) :
  StronglySorted Z.le C -> C <> [] ->
  exists i, nearest_event q C = Some i /\ (i < length C)%nat /\
            nearest_with_ties_down C q (nth i C 0).
Proof.
  induction 1 as [|c C' HS IH Hall]; intros Hne; [congruence|].
  destruct C' as [|c' C''].
  - exists 0%nat. simpl. repeat split; [lia | now left |].
    intros x [<-|[]]. right. lia.
  - destruct IH as (j & Hj & Hlt & Hin & Hbest); [discriminate|].
    rewrite Forall_forall in Hall.
    remember (c' :: C'') as D eqn:HD.
    cbn [nearest_event]. rewrite Hj.
    destruct (Z.abs (c - q) <=? Z.abs (nth j D 0 - q)) eqn:E.
    + apply Z.leb_le in E. exists 0%nat. cbn [nth length].
      repeat split; [lia | now left |].
      intros x [<-|Hx]; [right; lia|].
      specialize (Hall x Hx). specialize (Hbest x Hx). lia.
    + apply Z.leb_gt in E. exists (S j). cbn [nth length].
      repeat split; [lia | now right |].
      intros x [<-|Hx]; [left; lia|].
      apply (Hbest x Hx).
Qed.

Lemma nearest_event_sorted (q : Z) (C : list Z) :
  Sorted Z.le C -> C <> [] ->
  exists i, nearest_event q C = Some i /\ (i < length C)%nat /\
            nearest_with_ties_down C q (nth i C 0).
Proof.
  intros HS. apply nearest_event_strongly_sorted.
  apply Sorted_StronglySorted; [|assumption].
  intros x y z; apply Z.le_trans.
Qed.

Lemma nearest_event_nonempty (q : Z) (C : list Z) :
  C <> [] -> exists i, nearest_event q C = Some i /\ (i < length C)%nat.
Proof.
  induction C as [|c C' IH]; intros Hne; [congruence|].
  cbn [nearest_event]. destruct C' as [|c' C''].
  - exists 0%nat. simpl. split; [reflexivity | lia].
  - destruct IH as (j & -> & Hlt); [discriminate|].
    destruct (_ <=? _); eexists; (split; [reflexivity|]); cbn [length] in *; lia.
Qed.

Lemma match_events_pair (a b : Z) (C : list Z) (i j : nat) :
  nearest_event a C = Some i -> nearest_event b C = Some j ->
  match_events [a; b] C = Ok [i; j].
Proof.
  intros Ha Hb. cbn [match_events]. rewrite Ha, Hb.
  destruct C; [discriminate | reflexivity].
Qed.

Lemma match_events_no_candidate (a b : Z) :
  match_events [a; b] [] = Raise ValueError.
Proof. reflexivity. Qed.

(** The indices that [np.nonzero] gives come in increasing order. *)
Lemma nonzero_from_lower_bound (b : list bool) :
  forall i z, In z (nonzero_from i b) -> i <= z.
Proof.
  induction b as [|x b IH]; intros i z Hin; [contradiction|].
  cbn [nonzero_from] in Hin. destruct x.
  - destruct Hin as [<-|Hin]; [lia|]. apply IH in Hin. lia.
  - apply IH in Hin. lia.
Qed.

Lemma nonzero_sorted (b : list bool) : Sorted Z.le (nonzero b).
Proof.
  unfold nonzero. generalize 0.
  induction b as [|x b IH]; intros i; cbn [nonzero_from]; [constructor|].
  destruct x; [|apply IH].
  constructor; [apply IH|].
  specialize (IH (i + 1)).
  destruct (nonzero_from (i + 1) b) as [|z l] eqn:E; constructor.
  assert (i + 1 <= z) by (apply (nonzero_from_lower_bound b); rewrite E; now left).
  lia.
Qed.

Lemma snap_nearest (zeros : list Z) (q : Z) :
  Sorted Z.le zeros -> zeros <> [] -> nearest_with_ties_down zeros q (snap zeros q).
Proof.
  intros HS Hne. unfold snap.
  destruct (nearest_event_sorted q zeros HS Hne) as (i & -> & _ & H). exact H.
Qed.

(** C3.  For a query [q] and a non-empty sorted candidate sequence [C]
    the matcher answers a position of [C] whose candidate is at the
    least distance from [q], and is the smaller one of two candidates
    at the same distance.  With the candidates 0, 10, 20 the query 5
    is matched to 0, the query 15 to 10, and the query 21 to 20. *)
Theorem match_events_nearest_ties_down :
  (forall (q : Z) (C : list Z),
      C <> [] -> Sorted Z.le C ->
      exists i, match_events [q] C = Ok [i] /\ (i < length C)%nat /\
                nearest_with_ties_down C q (nth i C 0))
  /\ match_events [5; 15; 21] [0; 10; 20] = Ok [0%nat; 1%nat; 2%nat]
  /\ map (snap [0; 10; 20]) [5; 15; 21] = [0; 10; 20].
Proof.
  split; [|split; reflexivity].
  intros q C Hne HS.
  destruct (nearest_event_sorted q C HS Hne) as (i & Hi & Hlt & Hbest).
  exists i. repeat split; try assumption; try apply Hbest.
  cbn [match_events]. rewrite Hi. destruct C; [congruence | reflexivity].
Qed.

Lemma match_events_nearest_ties_down_witness :
  [0; 10; 20] <> [] /\ Sorted Z.le [0; 10; 20] /\
  exists i, match_events [15] [0; 10; 20] = Ok [i] /\ (i < 3)%nat /\
            nearest_with_ties_down [0; 10; 20] 15 (nth i [0; 10; 20] 0).
Proof.
  assert (Hne : [0; 10; 20] <> []) by discriminate.
  assert (HS : Sorted Z.le [0; 10; 20]) by (repeat constructor; lia).
  split; [exact Hne|]. split; [exact HS|].
  exact (proj1 match_events_nearest_ties_down 15 [0; 10; 20] Hne HS).
Defined.

(** ** Concatenation of slices *)

Lemma map2_map {A B C D : Type} (h : B -> C -> D) (f : A -> B) (g : A -> C)
  (l : list A) :
  map2 h (map f l) (map g l) = map (fun a => h (f a) (g a)) l.
Proof.
  induction l as [|a l IH]; cbn; [reflexivity | now rewrite IH].
Qed.

Section SlicesProperties.

Context {sample : Type}.
Implicit Types (y : AudioBuffer sample) (ivs : list (Z * Z)).

Lemma concatenate_from_mono (l : list sample) ivs :
  forall x,
    concatenate_from (Mono x)
      (map (fun iv => slice_time (Mono l) (fst iv) (snd iv)) ivs)
    = Ok (Mono (x ++ concat (map (fun iv => slice_list l (fst iv) (snd iv)) ivs))).
Proof.
  induction ivs as [|iv ivs IH]; intros x; cbn.
  - now rewrite app_nil_r.
  - rewrite IH, app_assoc. reflexivity.
Qed.

Lemma concatenate_from_multi (t : nat) (rows : list (list sample)) ivs :
  forall (t1 : nat) (f : list sample -> list sample),
    concatenate_from (Multi t1 (map f rows))
      (map (fun iv => slice_time (Multi t rows) (fst iv) (snd iv)) ivs)
    = Ok (Multi (t1 + list_sum (map (fun iv => slice_len t (fst iv) (snd iv)) ivs))
                (map (fun r => f r ++ concat (map (fun iv => slice_list r (fst iv) (snd iv)) ivs))
                     rows)).
Proof.
  induction ivs as [|iv ivs IH]; intros t1 f; cbn.
  - rewrite Nat.add_0_r. f_equal. f_equal. apply map_ext. intros r.
    now rewrite app_nil_r.
  - rewrite !length_map, Nat.eqb_refl, map2_map, IH.
    f_equal. f_equal; [unfold list_sum; lia|]. apply map_ext. intros r.
    now rewrite app_assoc.
Qed.

Lemma concatenate_slices y ivs :
  ivs <> [] ->
  concatenate (map (fun iv => slice_time y (fst iv) (snd iv)) ivs)
  = Ok (slices_in_order y ivs).
Proof.
  destruct ivs as [|iv ivs]; [congruence|]. intros _.
  destruct y as [l|t rows]; cbn [map concatenate].
  - cbn [slice_time]. apply (concatenate_from_mono l ivs).
  - cbn [slice_time]. apply (concatenate_from_multi t rows ivs).
Qed.

Lemma set_last_initial y (x : index_item) :
  set_last (repeat IEllipsis (ndim y)) x = Ok (index_for y x).
Proof. destruct y; reflexivity. Qed.

Lemma set_last_index_for y (x0 x : index_item) :
  set_last (index_for y x0) x = Ok (index_for y x).
Proof. destruct y; reflexivity. Qed.

Lemma getitem_index_for y (a b : Z) :
  getitem y (index_for y (ISlice a b)) = Ok (slice_time y a b).
Proof. destruct y; reflexivity. Qed.

Lemma ndim_slices_in_order y ivs : ndim (slices_in_order y ivs) = ndim y.
Proof. destruct y; reflexivity. Qed.

Lemma n_channels_slices_in_order y ivs :
  n_channels (slices_in_order y ivs) = n_channels y.
Proof. destruct y; cbn; [reflexivity | apply length_map]. Qed.

Lemma rows_of_slices_in_order y ivs :
  rows_of (slices_in_order y ivs)
  = map (fun r => concat (map (fun iv => slice_list r (fst iv) (snd iv)) ivs))
        (rows_of y).
Proof. destruct y; reflexivity. Qed.

Lemma time_len_slices_in_order y ivs :
  time_len (slices_in_order y ivs)
  = list_sum (map (fun iv => slice_len (time_len y) (fst iv) (snd iv)) ivs).
Proof.
  destruct y as [l|t rows]; cbn; [|reflexivity].
  induction ivs as [|iv ivs IH]; cbn; [reflexivity|].
  now rewrite length_app, length_slice_list, IH.
Qed.

Lemma time_len_in_range y ivs :
  Forall (in_range (time_len y)) ivs ->
  time_len (slices_in_order y ivs) = list_sum (map interval_len ivs).
Proof.
  intros H. rewrite time_len_slices_in_order. f_equal.
  apply map_ext_in. intros iv Hin. apply slice_len_in_range.
  rewrite Forall_forall in H. auto.
Qed.

Lemma rows_in_range y ivs :
  well_shaped y -> Forall (in_range (time_len y)) ivs ->
  rows_of (slices_in_order y ivs)
  = map (fun r => concat (map (span r) ivs)) (rows_of y).
Proof.
  intros Hw H. rewrite rows_of_slices_in_order.
  apply map_ext_in. intros r Hr. f_equal.
  apply map_ext_in. intros iv Hin. apply slice_list_in_range.
  unfold well_shaped in Hw. rewrite Forall_forall in Hw, H.
  rewrite (Hw r Hr). auto.
Qed.

End SlicesProperties.

(** ** remix *)

Section RemixProperties.

Context {sample spectrogram scalar dtype : Type}.
Context {svc : Services sample spectrogram scalar dtype}.
Implicit Types (y : AudioBuffer sample) (ivs : list (Z * Z)).

Lemma concatenate_single y : concatenate [y] = Ok y.
Proof. reflexivity. Qed.

Lemma remix_step_plain y zeros clip (iv : Z * Z) acc :
  (forall x, set_last clip x = Ok (index_for y x)) ->
  @remix_step sample spectrogram scalar dtype y false zeros clip iv acc
  = (Ok (index_for y (ISlice (fst iv) (snd iv)),
         acc ++ [slice_time y (fst iv) (snd iv)]), []).
Proof.
  intros Hclip. unfold remix_step, bind, lift, ret.
  rewrite Hclip, getitem_index_for. reflexivity.
Qed.

Lemma remix_step_aligned y zeros clip (iv : Z * Z) acc :
  zeros <> [] ->
  (forall x, set_last clip x = Ok (index_for y x)) ->
  @remix_step sample spectrogram scalar dtype y true zeros clip iv acc
  = (Ok (index_for y (ISlice (snap zeros (fst iv)) (snap zeros (snd iv))),
         acc ++ [slice_time y (snap zeros (fst iv)) (snap zeros (snd iv))]),
     [call_match_events [fst iv; snd iv] zeros]).
Proof.
  intros Hne Hclip.
  destruct (nearest_event_nonempty (fst iv) zeros Hne) as (i & Hi & _).
  destruct (nearest_event_nonempty (snd iv) zeros Hne) as (j & Hj & _).
  unfold remix_step, bind, invoke, lift, ret, snap.
  rewrite (match_events_pair _ _ _ _ _ Hi Hj), Hi, Hj.
  cbn [map nth fst snd].
  rewrite Hclip, getitem_index_for. reflexivity.
Qed.


Lemma remix_loop_slices y (align_zeros : bool) zeros ivs :
  (align_zeros = true -> zeros <> []) ->
  forall clip acc,
    (forall x, set_last clip x = Ok (index_for y x)) ->
    @remix_loop sample spectrogram scalar dtype y align_zeros zeros clip ivs acc
    = (Ok (acc ++ map (fun iv => slice_time y (fst iv) (snd iv))
                      (map (bounds_used align_zeros zeros) ivs)),
       if align_zeros
       then map (fun iv => call_match_events [fst iv; snd iv] zeros) ivs
       else []).
Proof.
  intros Hz. induction ivs as [|iv ivs IH]; intros clip acc Hclip.
  - cbn. rewrite app_nil_r. now destruct align_zeros.
  - cbn [remix_loop map]. destruct align_zeros.
    + rewrite (remix_step_aligned y zeros clip iv acc (Hz eq_refl) Hclip).
      unfold bind. cbn [fst snd].
      rewrite IH by (intros x; apply set_last_index_for).
      rewrite <- app_assoc. reflexivity.
    + rewrite (remix_step_plain y zeros clip iv acc Hclip).
      unfold bind. cbn [fst snd].
      rewrite IH by (intros x; apply set_last_index_for).
      rewrite <- app_assoc. reflexivity.
Qed.

(** Without alignment [remix] is the concatenation of the slices, after
    the one call that validates the buffer. *)
Lemma remix_unaligned y ivs :
  valid_audio y false = Ok tt ->
  remix y ivs false
  = (concatenate (map (fun iv => slice_time y (fst iv) (snd iv)) ivs),
     [call_valid_audio y false]).
Proof.
  intros Hv. unfold remix, bind, invoke, ret, lift.
  rewrite Hv. cbv beta iota.
  rewrite (remix_loop_slices y false [] ivs) by
    (try discriminate; intros x; apply set_last_initial).
  cbn [app bounds_used].
  rewrite map_id. reflexivity.
Qed.

(** With alignment and at least one zero-crossing, [remix] is the
    concatenation of the slices at the snapped bounds, after the
    validation, one down-mix, one detection, and one match per
    interval. *)
Lemma remix_aligned y ivs (m : list sample) (zc : list bool) :
  valid_audio y false = Ok tt ->
  to_mono y = Ok m ->
  zero_crossings m = Ok zc ->
  nonzero zc <> [] ->
  remix y ivs true
  = (concatenate (map (fun iv => slice_time y (fst iv) (snd iv))
                      (map (snap_interval (nonzero zc)) ivs)),
     call_valid_audio y false :: call_to_mono y :: call_zero_crossings m ::
     map (fun iv => call_match_events [fst iv; snd iv] (nonzero zc)) ivs).
Proof.
  intros Hv Hm Hzc Hne. unfold remix, bind, invoke, ret, lift.
  rewrite Hv, Hm. cbv beta iota. rewrite Hzc. cbv beta iota.
  rewrite (remix_loop_slices y true (nonzero zc) ivs) by
    (try (intros _; exact Hne); intros x; apply set_last_initial).
  cbn [app bounds_used].
  rewrite app_nil_r. reflexivity.
Qed.



End RemixProperties.

Section RemixClaims.

Context {sample spectrogram scalar dtype : Type}.
Context {svc : Services sample spectrogram scalar dtype}.
Implicit Types (y : AudioBuffer sample) (ivs : list (Z * Z)).


(** C2, as the code has it.  For a valid buffer of one or two
    dimensions and a non-empty list of intervals, [remix] without
    alignment returns the end-exclusive slices [y[..., start:end]], one
    after the other along the time axis, in the order of the list; the
    number of dimensions and of channels are those of [y]; the list in
    reverse order gives the segments in reverse order; and for
    intervals with [0 <= start <= end <= n] the length is the sum of
    the lengths of the intervals.  For instance
    [remix([0,1,2,3,4,5], [(0,2),(4,6)]) == [0,1,4,5]]. *)
Theorem remix_unaligned_in_list_order :
  (forall y ivs,
      valid_audio y false = Ok tt ->
      ivs <> [] ->
      outcome (remix y ivs false) = Ok (slices_in_order y ivs)
      /\ ndim (slices_in_order y ivs) = ndim y
      /\ n_channels (slices_in_order y ivs) = n_channels y
      /\ rows_of (slices_in_order y ivs)
         = map (fun r => concat (map (fun iv => slice_list r (fst iv) (snd iv)) ivs))
               (rows_of y)
      /\ (exists out,
             outcome (remix y (rev ivs) false) = Ok out
             /\ rows_of out
                = map (fun r => concat (rev (map (fun iv => slice_list r (fst iv) (snd iv)) ivs)))
                      (rows_of y))
      /\ (well_shaped y -> Forall (in_range (time_len y)) ivs ->
          time_len (slices_in_order y ivs) = list_sum (map interval_len ivs)
          /\ rows_of (slices_in_order y ivs)
             = map (fun r => concat (map (span r) ivs)) (rows_of y)))
  /\ outcome (remix (svc := Mock.mock_services) Mock.ramp [(0, 2); (4, 6)] false) = Ok (Mono (Mock.Qs [0; 1; 4; 5]))
  /\ outcome (remix (svc := Mock.mock_services) Mock.ramp [(4, 6); (0, 2)] false) = Ok (Mono (Mock.Qs [4; 5; 0; 1])).
Proof.
  split; [|split; reflexivity].
  intros y ivs Hv Hivs.
  split.
  { rewrite (remix_unaligned y ivs Hv). apply concatenate_slices, Hivs. }
  split; [apply ndim_slices_in_order|].
  split; [apply n_channels_slices_in_order|].
  split; [apply rows_of_slices_in_order|].
  split.
  - exists (slices_in_order y (rev ivs)). split.
    + rewrite (remix_unaligned y (rev ivs) Hv). apply concatenate_slices.
      intros E. apply (f_equal (@rev _)) in E. rewrite rev_involutive in E.
      exact (Hivs E).
    + rewrite rows_of_slices_in_order. apply map_ext. intros r.
      now rewrite map_rev.
  - intros Hw Hr. split; [apply time_len_in_range | apply rows_in_range]; assumption.
Qed.


(** C5, as the code has it.  For a valid buffer of time length [n] and
    an interval of any two integers, [remix] without alignment raises
    nothing: it hands the bounds as they are to the slice, and the
    slice adjusts them (a bound past [n] is [n], a negative bound
    counts from the end and is floored at 0), so the result is the
    adjusted slice, of length [stop' - start'] for the adjusted
    bounds, or empty. *)
Theorem remix_out_of_range_is_sliced y (s e : Z) :
  valid_audio y false = Ok tt ->
  let n := Z.of_nat (time_len y) in
  remix y [(s, e)] false = (Ok (slice_time y s e), [call_valid_audio y false])
  /\ time_len (slice_time y s e)
     = Z.to_nat (adjust_index n e - adjust_index n s)
  /\ 0 <= adjust_index n s <= n
  /\ 0 <= adjust_index n e <= n
  /\ (n <= e -> adjust_index n e = n)
  /\ (n <= s -> time_len (slice_time y s e) = 0%nat)
  /\ (s < 0 -> adjust_index n s = Z.max 0 (s + n))
  /\ (well_shaped y ->
      rows_of (slice_time y s e)
      = map (fun r => firstn (Z.to_nat (adjust_index n e - adjust_index n s))
                             (skipn (Z.to_nat (adjust_index n s)) r))
            (rows_of y)).
Proof.
  intros Hv n.
  assert (Hn : 0 <= n) by (unfold n; lia).
  pose proof (adjust_index_bounds n s Hn) as Hs.
  pose proof (adjust_index_bounds n e Hn) as Hen.
  assert (Hlen : time_len (slice_time y s e)
                 = Z.to_nat (adjust_index n e - adjust_index n s)).
  { destruct y as [l|t rows]; cbn [slice_time time_len];
      [rewrite length_slice_list|]; reflexivity. }
  split; [rewrite (remix_unaligned y [(s, e)] Hv); reflexivity|].
  split; [exact Hlen|].
  split; [exact Hs|]. split; [exact Hen|].
  split; [intros H; apply adjust_index_past_end; assumption|].
  split.
  { intros H. rewrite Hlen, (adjust_index_past_end n s Hn H). lia. }
  split; [apply adjust_index_negative|].
  intros Hw. unfold well_shaped in Hw. rewrite Forall_forall in Hw.
  destruct y as [l|t rows]; cbn [slice_time rows_of map] in *.
  - reflexivity.
  - apply map_ext_in. intros r Hr. unfold slice_list, slice_len.
    rewrite (Hw r Hr). reflexivity.
Qed.

(** C10.  A call of [remix] that leaves [align_zeros] out is the call
    with [align_zeros=True]. *)
Theorem remix_aligns_by_default y ivs :
  remix_call y ivs None = remix_call y ivs (Some true)
  /\ remix_call y ivs None = remix y ivs true.
Proof. split; reflexivity. Qed.

End RemixClaims.

(** ** The transform pipelines *)

Lemma length_fix_length {A : Type} (zero : A) (y : list A) (n : nat) :
  length (fix_length zero y n) = n.
Proof.
  unfold fix_length. rewrite length_app, length_firstn, repeat_length. lia.
Qed.

Section PipelineProperties.

Context {sample spectrogram scalar dtype : Type}.
Context {svc : Services sample spectrogram scalar dtype}.
Implicit Types (y : list sample) (rate : scalar).

(** What [time_stretch] does, by the outcomes of the services. *)
Lemma time_stretch_cases y rate :
  time_stretch y rate
  = match stft y with
    | Raise e => (Raise e, [call_stft y])
    | Ok s =>
        match phase_vocoder s rate with
        | Raise e => (Raise e, [call_stft y; call_phase_vocoder s rate])
        | Ok s' =>
            (istft s' (dtype_of y),
             [call_stft y; call_phase_vocoder s rate; call_istft s' (dtype_of y)])
        end
    end.
Proof.
  unfold time_stretch, bind, invoke, ret.
  destruct (stft y) as [s|e]; [|reflexivity].
  destruct (phase_vocoder s rate) as [s'|e]; [|reflexivity].
  destruct (istft s' (dtype_of y)); reflexivity.
Qed.

(** What [hpss] does, by the outcomes of the services. *)
Lemma hpss_cases y :
  hpss y
  = match stft y with
    | Raise e => (Raise e, [call_stft y])
    | Ok s =>
        match decompose_hpss s with
        | Raise e => (Raise e, [call_stft y; call_decompose_hpss s])
        | Ok (sh, sp) =>
            match istft sh (dtype_of y) with
            | Raise e =>
                (Raise e, [call_stft y; call_decompose_hpss s;
                           call_istft sh (dtype_of y)])
            | Ok yh =>
                match istft sp (dtype_of y) with
                | Raise e =>
                    (Raise e, [call_stft y; call_decompose_hpss s;
                               call_istft sh (dtype_of y);
                               call_fix_length yh (length y);
                               call_istft sp (dtype_of y)])
                | Ok yp =>
                    (Ok (fix_length zero_sample yh (length y),
                         fix_length zero_sample yp (length y)),
                     [call_stft y; call_decompose_hpss s;
                      call_istft sh (dtype_of y);
                      call_fix_length yh (length y);
                      call_istft sp (dtype_of y);
                      call_fix_length yp (length y)])
                end
            end
        end
    end.
Proof.
  unfold hpss, bind, invoke, ret.
  destruct (stft y) as [s|e]; [|reflexivity].
  destruct (decompose_hpss s) as [[sh sp]|e]; [|reflexivity].
  destruct (istft sh (dtype_of y)) as [yh|e]; [|reflexivity].
  destruct (istft sp (dtype_of y)) as [yp|e]; reflexivity.
Qed.

Lemma harmonic_cases y :
  harmonic y
  = match stft y with
    | Raise e => (Raise e, [call_stft y])
    | Ok s =>
        match decompose_hpss s with
        | Raise e => (Raise e, [call_stft y; call_decompose_hpss s])
        | Ok (sh, sp) =>
            match istft sh (dtype_of y) with
            | Raise e =>
                (Raise e, [call_stft y; call_decompose_hpss s;
                           call_istft sh (dtype_of y)])
            | Ok yh =>
                (Ok (fix_length zero_sample yh (length y)),
                 [call_stft y; call_decompose_hpss s;
                  call_istft sh (dtype_of y);
                  call_fix_length yh (length y)])
            end
        end
    end.
Proof.
  unfold harmonic, bind, invoke, ret.
  destruct (stft y) as [s|e]; [|reflexivity].
  destruct (decompose_hpss s) as [[sh sp]|e]; [|reflexivity].
  cbn [fst]. destruct (istft sh (dtype_of y)) as [yh|e]; reflexivity.
Qed.

Lemma percussive_cases y :
  percussive y
  = match stft y with
    | Raise e => (Raise e, [call_stft y])
    | Ok s =>
        match decompose_hpss s with
        | Raise e => (Raise e, [call_stft y; call_decompose_hpss s])
        | Ok (sh, sp) =>
            match istft sp (dtype_of y) with
            | Raise e =>
                (Raise e, [call_stft y; call_decompose_hpss s;
                           call_istft sp (dtype_of y)])
            | Ok yp =>
                (Ok (fix_length zero_sample yp (length y)),
                 [call_stft y; call_decompose_hpss s;
                  call_istft sp (dtype_of y);
                  call_fix_length yp (length y)])
            end
        end
    end.
Proof.
  unfold percussive, bind, invoke, ret.
  destruct (stft y) as [s|e]; [|reflexivity].
  destruct (decompose_hpss s) as [[sh sp]|e]; [|reflexivity].
  cbn [snd]. destruct (istft sp (dtype_of y)) as [yp|e]; reflexivity.
Qed.

(** What [pitch_shift] does once the rate is known. *)
Lemma pitch_shift_cases y (sr n_steps bins_per_octave e : scalar) rate :
  float_div (float_neg n_steps) bins_per_octave = Ok e ->
  float_pow2 e = Ok rate ->
  pitch_shift y sr n_steps bins_per_octave
  = match outcome (time_stretch y rate) with
    | Raise x => (Raise x, call_log (time_stretch y rate))
    | Ok ys =>
        match float_div sr rate with
        | Raise x => (Raise x, call_log (time_stretch y rate))
        | Ok orig_sr =>
            match resample ys orig_sr sr with
            | Raise x =>
                (Raise x, call_log (time_stretch y rate)
                          ++ [call_resample ys orig_sr sr])
            | Ok y_shift =>
                (Ok (fix_length zero_sample y_shift (length y)),
                 call_log (time_stretch y rate)
                 ++ [call_resample ys orig_sr sr;
                     call_fix_length y_shift (length y)])
            end
        end
    end.
Proof.
  intros He Hrate. unfold pitch_shift, bind, invoke, lift, outcome, call_log.
  rewrite He. cbv beta iota. rewrite Hrate. cbv beta iota.
  destruct (time_stretch y rate) as [[ys|x] log]; cbn [fst snd app];
    [|reflexivity].
  destruct (float_div sr rate) as [orig_sr|x]; cbn [app];
    [|now rewrite app_nil_r].
  destruct (resample ys orig_sr sr) as [y_shift|x]; reflexivity.
Qed.

End PipelineProperties.

Section PipelineClaims.

Context {sample spectrogram scalar dtype : Type}.
Context {svc : Services sample spectrogram scalar dtype}.
Implicit Types (y : list sample) (rate : scalar).

(** C6.  Both outputs of [hpss(y)] have the length of [y]: whenever the
    transform, the decomposition and the two inverse transforms
    succeed, [hpss] returns the two inverted components fixed to the
    length of [y], and whatever pair [hpss] returns has that length
    twice. *)
Theorem hpss_outputs_have_input_length y :
  (forall (s sh sp : spectrogram) (yh yp : list sample),
      stft y = Ok s ->
      decompose_hpss s = Ok (sh, sp) ->
      istft sh (dtype_of y) = Ok yh ->
      istft sp (dtype_of y) = Ok yp ->
      outcome (hpss y)
      = Ok (fix_length zero_sample yh (length y),
            fix_length zero_sample yp (length y)))
  /\ (forall h p : list sample,
         outcome (hpss y) = Ok (h, p) ->
         length h = length y /\ length p = length y).
Proof.
  rewrite hpss_cases. split.
  - intros s sh sp yh yp -> -> -> ->. reflexivity.
  - intros h p.
    destruct (stft y) as [s|e]; [|discriminate].
    destruct (decompose_hpss s) as [[sh sp]|e]; [|discriminate].
    destruct (istft sh (dtype_of y)) as [yh|e]; [|discriminate].
    destruct (istft sp (dtype_of y)) as [yp|e]; [|discriminate].
    unfold outcome. cbn [fst]. intros [= <- <-].
    split; apply length_fix_length.
Qed.

(** C7.  [harmonic(y)] is the first component of [hpss(y)] and
    [percussive(y)] the second: when [hpss] returns a pair, the two
    single pipelines return its components, each with one inverse
    transform where [hpss] has two; and when both single pipelines
    return, [hpss] returns their pair. *)
Theorem harmonic_percussive_are_hpss_components y :
  (forall h p : list sample,
      outcome (hpss y) = Ok (h, p) ->
      outcome (harmonic y) = Ok h
      /\ outcome (percussive y) = Ok p
      /\ count_calls is_istft (call_log (hpss y)) = 2%nat
      /\ count_calls is_istft (call_log (harmonic y)) = 1%nat
      /\ count_calls is_istft (call_log (percussive y)) = 1%nat)
  /\ (forall h p : list sample,
         outcome (harmonic y) = Ok h ->
         outcome (percussive y) = Ok p ->
         outcome (hpss y) = Ok (h, p)).
Proof.
  rewrite hpss_cases, harmonic_cases, percussive_cases.
  destruct (stft y) as [s|e]; [|split; intros; discriminate].
  destruct (decompose_hpss s) as [[sh sp]|e]; [|split; intros; discriminate].
  destruct (istft sh (dtype_of y)) as [yh|e];
    [|split; intros; discriminate].
  destruct (istft sp (dtype_of y)) as [yp|e];
    [|split; intros; discriminate].
  unfold outcome, call_log, count_calls. cbn.
  split.
  - intros h p [= <- <-]. repeat split.
  - intros h p [= <-] [= <-]. reflexivity.
Qed.

(** C8.  [pitch_shift(y, sr, n_steps, bins_per_octave)] takes
    [rate = 2 ** (-n_steps / bins_per_octave)], stretches [y] by
    [rate], resamples the result from [sr / rate] to [sr], and fixes
    the length to that of [y]: when these steps succeed it returns the
    resampled signal fixed to [len(y)], after the calls of
    [time_stretch], one resampling and one length fix; and whatever it
    returns has the length of [y]. *)
Theorem pitch_shift_keeps_length y (sr n_steps bins_per_octave : scalar) :
  (forall (e : scalar) rate (ys : list sample) (orig_sr : scalar)
          (y_shift : list sample),
      float_div (float_neg n_steps) bins_per_octave = Ok e ->
      float_pow2 e = Ok rate ->
      outcome (time_stretch y rate) = Ok ys ->
      float_div sr rate = Ok orig_sr ->
      resample ys orig_sr sr = Ok y_shift ->
      outcome (pitch_shift y sr n_steps bins_per_octave)
      = Ok (fix_length zero_sample y_shift (length y))
      /\ call_log (pitch_shift y sr n_steps bins_per_octave)
         = call_log (time_stretch y rate)
           ++ [call_resample ys orig_sr sr; call_fix_length y_shift (length y)]
      /\ length (fix_length zero_sample y_shift (length y)) = length y)
  /\ (forall out : list sample,
         outcome (pitch_shift y sr n_steps bins_per_octave) = Ok out ->
         length out = length y).
Proof.
  split.
  - intros e rate ys orig_sr y_shift He Hrate Hts Hdiv Hres.
    rewrite (pitch_shift_cases y sr n_steps bins_per_octave e rate He Hrate).
    rewrite Hts, Hdiv, Hres. repeat split. apply length_fix_length.
  - intros out.
    destruct (float_div (float_neg n_steps) bins_per_octave) as [e|x] eqn:He.
    2:{ unfold pitch_shift, bind, lift. rewrite He. discriminate. }
    destruct (float_pow2 e) as [rate|x] eqn:Hrate.
    2:{ unfold pitch_shift, bind, lift. rewrite He. cbv beta iota.
        rewrite Hrate. discriminate. }
    rewrite (pitch_shift_cases y sr n_steps bins_per_octave e rate He Hrate).
    destruct (outcome (time_stretch y rate)) as [ys|x]; [|discriminate].
    destruct (float_div sr rate) as [orig_sr|x]; [|discriminate].
    destruct (resample ys orig_sr sr) as [y_shift|x]; [|discriminate].
    unfold outcome. cbn [fst]. intros [= <-]. apply length_fix_length.
Qed.

(** C9, as the code has it.  [time_stretch(y, rate)] documents
    [rate > 0] and checks nothing: for every rate it first computes
    the transform of [y], then hands the rate as it is to the phase
    vocoder, then inverts; an error for a rate that is not positive
    can only be one of these services', raised after the transform
    was computed, and when the services accept the rate a signal is
    returned. *)
Theorem time_stretch_does_not_check_rate y rate :
  (exists rest, call_log (time_stretch y rate) = call_stft y :: rest)
  /\ (forall s : spectrogram,
         stft y = Ok s ->
         exists rest,
           call_log (time_stretch y rate)
           = call_stft y :: call_phase_vocoder s rate :: rest)
  /\ (forall (s s' : spectrogram) (out : list sample),
         stft y = Ok s ->
         phase_vocoder s rate = Ok s' ->
         istft s' (dtype_of y) = Ok out ->
         time_stretch y rate
         = (Ok out, [call_stft y; call_phase_vocoder s rate;
                     call_istft s' (dtype_of y)]))
  /\ (forall (s : spectrogram) (e : exn),
         stft y = Ok s ->
         phase_vocoder s rate = Raise e ->
         time_stretch y rate
         = (Raise e, [call_stft y; call_phase_vocoder s rate])).
Proof.
  rewrite time_stretch_cases. unfold call_log.
  split; [|split; [|split]].
  - destruct (stft y) as [s|e]; [|eexists; reflexivity].
    destruct (phase_vocoder s rate); eexists; reflexivity.
  - intros s ->. destruct (phase_vocoder s rate); eexists; reflexivity.
  - intros s s' out -> -> ->. reflexivity.
  - intros s e -> ->. reflexivity.
Qed.

End PipelineClaims.

(** ** Runs on the reference instance *)

Section Runs.

Import Mock.

Lemma match_events_first_wins_on_ties :
  match_events [5] [3; 7] = Ok [0%nat] /\ snap [3; 7] 5 = 3 /\ snap [3; 7] 0 = 3.
Proof. repeat split. Qed.



(** C2 at the buffer [[0,1,2,3,4,5]] and at two channels. *)
Lemma remix_unaligned_in_list_order_witness :
  valid_audio stereo false = Ok tt
  /\ [(4, 6); (0, 2)] <> []
  /\ outcome (remix stereo [(4, 6); (0, 2)] false)
     = Ok (slices_in_order stereo [(4, 6); (0, 2)])
  /\ slices_in_order stereo [(4, 6); (0, 2)]
     = Multi 4 [Qs [4; 5; 0; 1]; Qs [14; 15; 10; 11]]
  /\ n_channels (slices_in_order stereo [(4, 6); (0, 2)]) = n_channels stereo.
Proof.
  assert (Hivs : [(4, 6); (0, 2)] <> []) by discriminate.
  pose proof (proj1 (remix_unaligned_in_list_order (svc := mock_services))
                stereo [(4, 6); (0, 2)] eq_refl Hivs)
    as (Hout & _ & Hch & _).
  repeat split; assumption.
Defined.

(** C2 as stated fails on the empty list of intervals, where
    [np.concatenate] has nothing to join and raises, and its length
    clause fails on an interval that leaves the buffer. *)
Lemma remix_unaligned_counterexample :
  remix ramp [] false = (Raise ValueError, [call_valid_audio ramp false])
  /\ outcome (remix ramp [(4, 10)] false) = Ok (Mono (Qs [4; 5]))
  /\ interval_len (4, 10) = 6%nat
  /\ time_len (Mono (Qs [4; 5])) = 2%nat.
Proof. repeat split. Qed.



(** C5 at an interval that ends past the buffer. *)
Lemma remix_out_of_range_is_sliced_witness :
  valid_audio ramp false = Ok tt
  /\ remix ramp [(4, 10)] false
     = (Ok (slice_time ramp 4 10), [call_valid_audio ramp false])
  /\ time_len (slice_time ramp 4 10) = 2%nat.
Proof.
  pose proof (remix_out_of_range_is_sliced (svc := mock_services)
                ramp 4 10 eq_refl) as (Hout & Hlen & _).
  repeat split; assumption.
Defined.

(** C5 as stated fails: bounds outside [[0, n]] raise nothing, the
    slice adjusts them. *)
Lemma remix_out_of_range_counterexample :
  remix ramp [(4, 10)] false
  = (Ok (Mono (Qs [4; 5])), [call_valid_audio ramp false])
  /\ remix ramp [(-2, 10)] false
     = (Ok (Mono (Qs [4; 5])), [call_valid_audio ramp false])
  /\ remix ramp [(7, 9)] false
     = (Ok (Mono []), [call_valid_audio ramp false])
  /\ outcome (remix stereo [(-20, 1)] false) = Ok (Multi 1 [Qs [0]; Qs [10]]).
Proof. repeat split. Qed.

(** C6 at a signal of three samples. *)
Lemma hpss_outputs_have_input_length_witness :
  stft (Qs [1; 2; 3]) = Ok (Qs [1; 2; 3; 0; 0])
  /\ decompose_hpss (Qs [1; 2; 3; 0; 0]) = Ok (Qs [1; 2; 3; 0; 0], map Qopp (Qs [1; 2; 3; 0; 0]))
  /\ outcome (hpss (Qs [1; 2; 3]))
     = Ok (fix_length zero_sample (Qs [1; 2; 3; 0; 0]) 3,
           fix_length zero_sample (map Qopp (Qs [1; 2; 3; 0; 0])) 3)
  /\ length (fix_length (0#1) (Qs [1; 2; 3; 0; 0]) 3) = 3%nat.
Proof.
  pose proof (proj1 (hpss_outputs_have_input_length (svc := mock_services) (Qs [1; 2; 3]))
                _ _ _ _ _ eq_refl eq_refl eq_refl eq_refl) as Hout.
  pose proof (proj2 (hpss_outputs_have_input_length (svc := mock_services) (Qs [1; 2; 3]))
                _ _ Hout) as (Hh & _).
  repeat split; assumption.
Defined.

(** C7 at the same signal. *)
Lemma harmonic_percussive_are_hpss_components_witness :
  outcome (hpss (Qs [1; 2; 3])) = Ok (Qs [1; 2; 3], Qs [-1; -2; -3])
  /\ outcome (harmonic (Qs [1; 2; 3])) = Ok (Qs [1; 2; 3])
  /\ outcome (percussive (Qs [1; 2; 3])) = Ok (Qs [-1; -2; -3])
  /\ count_calls is_istft (call_log (harmonic (Qs [1; 2; 3]))) = 1%nat.
Proof.
  pose proof (proj1 (harmonic_percussive_are_hpss_components
                       (svc := mock_services) (Qs [1; 2; 3]))
                (Qs [1; 2; 3]) (Qs [-1; -2; -3]) eq_refl)
    as (Hh & Hp & _ & Hc & _).
  repeat split; assumption.
Defined.

(** C8 at four samples, shifted up by an octave at 8 Hz: the rate is
    1/2, the stretched signal has twelve samples at 16 Hz, and the
    result has four again. *)
Lemma pitch_shift_keeps_length_witness :
  float_div (float_neg (12#1)) (12#1) = Ok (-1#1)
  /\ float_pow2 (-1#1) = Ok (1#2)
  /\ float_div (8#1) (1#2) = Ok (16#1)
  /\ outcome (pitch_shift (Qs [1; 2; 3; 4]) (8#1) (12#1) (12#1))
     = Ok (fix_length zero_sample (Qs [1; 2; 3; 4; 0; 0]) 4)
  /\ length (fix_length zero_sample (Qs [1; 2; 3; 4; 0; 0]) 4) = 4%nat.
Proof.
  pose proof (proj1 (pitch_shift_keeps_length (svc := mock_services)
                       (Qs [1; 2; 3; 4]) (8#1) (12#1) (12#1))
                (-1#1) (1#2) _ (16#1) (Qs [1; 2; 3; 4; 0; 0])
                eq_refl eq_refl eq_refl eq_refl eq_refl)
    as (Hout & _ & Hlen).
  repeat split; assumption.
Defined.

(** C9 at a negative rate that the services accept. *)
Lemma time_stretch_does_not_check_rate_witness :
  stft (Qs [1; 2; 3; 4]) = Ok (Qs [1; 2; 3; 4; 0; 0])
  /\ phase_vocoder (Qs [1; 2; 3; 4; 0; 0]) (-1#1) = Ok []
  /\ time_stretch (Qs [1; 2; 3; 4]) (-1#1)
     = (Ok [], [call_stft (Qs [1; 2; 3; 4]);
                call_phase_vocoder (Qs [1; 2; 3; 4; 0; 0]) (-1#1);
                call_istft [] tt]).
Proof.
  pose proof (proj1 (proj2 (proj2 (time_stretch_does_not_check_rate
                                     (svc := mock_services) (Qs [1; 2; 3; 4]) (-1#1))))
                _ _ _ eq_refl eq_refl eq_refl) as Hrun.
  repeat split; assumption.
Defined.

(** C9 as stated fails: at the rate 0 the error is the phase vocoder's
    division by zero, raised after the transform was computed, and at
    the rate -1 no error is raised at all. *)
Lemma time_stretch_rate_counterexample :
  time_stretch (Qs [1; 2; 3; 4]) (0#1)
  = (Raise ZeroDivisionError,
     [call_stft (Qs [1; 2; 3; 4]);
      call_phase_vocoder (Qs [1; 2; 3; 4; 0; 0]) (0#1)])
  /\ time_stretch (Qs [1; 2; 3; 4]) (-1#1)
     = (Ok [], [call_stft (Qs [1; 2; 3; 4]);
                call_phase_vocoder (Qs [1; 2; 3; 4; 0; 0]) (-1#1);
                call_istft [] tt]).
Proof. repeat split. Qed.

End Runs.

(** * Further properties of the module *)

(** ** More on slices *)

Lemma slice_list_full {A : Type} (l : list A) :
  slice_list l 0 (Z.of_nat (length l)) = l.
Proof.
  unfold slice_list, slice_len.
  rewrite !adjust_index_in_range by lia.
  rewrite Z.sub_0_r, Nat2Z.id. cbn [Z.to_nat skipn]. apply firstn_all.
Qed.

Lemma slice_len_backward (n : nat) (s e : Z) :
  0 <= e <= s -> slice_len n s e = 0%nat.
Proof.
  intros H. unfold slice_len, adjust_index.
  destruct (e <? 0) eqn:E1; [lia|]. destruct (s <? 0) eqn:E2; [lia|].
  destruct (Z.of_nat n <=? e) eqn:E3; destruct (Z.of_nat n <=? s) eqn:E4; lia.
Qed.

Lemma slice_list_backward {A : Type} (l : list A) (s e : Z) :
  0 <= e <= s -> slice_list l s e = [].
Proof.
  intros H. unfold slice_list. now rewrite slice_len_backward.
Qed.

Lemma length_concat_slices {A : Type} (r : list A) (ivs : list (Z * Z)) :
  length (concat (map (fun iv => slice_list r (fst iv) (snd iv)) ivs))
  = list_sum (map (fun iv => slice_len (length r) (fst iv) (snd iv)) ivs).
Proof.
  induction ivs as [|iv ivs IH]; cbn; [reflexivity|].
  now rewrite length_app, length_slice_list, IH.
Qed.

Section MoreSlices.

Context {sample : Type}.
Implicit Types (y : AudioBuffer sample) (ivs : list (Z * Z)).

Lemma slice_time_full y :
  well_shaped y -> slice_time y 0 (Z.of_nat (time_len y)) = y.
Proof.
  destruct y as [l|t rows]; unfold well_shaped; cbn [slice_time time_len rows_of]; intros Hw.
  - now rewrite slice_list_full.
  - f_equal.
    + unfold slice_len. rewrite !adjust_index_in_range by lia. lia.
    + rewrite <- (map_id rows) at 2. apply map_ext_in. intros r Hr.
      rewrite Forall_forall in Hw. rewrite <- (Hw r Hr). apply slice_list_full.
Qed.

Lemma well_shaped_slices_in_order y ivs :
  well_shaped y -> well_shaped (slices_in_order y ivs).
Proof.
  unfold well_shaped. intros Hw. rewrite time_len_slices_in_order.
  rewrite rows_of_slices_in_order. apply Forall_forall. intros r' Hr'.
  apply in_map_iff in Hr' as (r & <- & Hr).
  rewrite Forall_forall in Hw. rewrite length_concat_slices, (Hw r Hr).
  reflexivity.
Qed.

Lemma concat2_slices_in_order y (a b : list (Z * Z)) :
  concat2 (slices_in_order y a) (slices_in_order y b)
  = Ok (slices_in_order y (a ++ b)).
Proof.
  destruct y as [l|t rows]; cbn [slices_in_order concat2].
  - now rewrite map_app, concat_app.
  - rewrite !length_map, Nat.eqb_refl, map2_map, map_app, list_sum_app.
    f_equal. f_equal. apply map_ext. intros r.
    now rewrite map_app, concat_app.
Qed.

End MoreSlices.

Section MoreRemix.

Context {sample spectrogram scalar dtype : Type}.
Context {svc : Services sample spectrogram scalar dtype}.
Implicit Types (y : AudioBuffer sample) (ivs : list (Z * Z)).

(** X1.  The round trip: on a valid buffer of coherent shape and time
    length [n], [remix] of the one interval [(0, n)] without alignment
    gives the buffer back. *)
Theorem remix_whole_buffer_is_identity y :
  valid_audio y false = Ok tt ->
  well_shaped y ->
  outcome (remix y [(0, Z.of_nat (time_len y))] false) = Ok y.
Proof.
  intros Hv Hw. rewrite (remix_unaligned y _ Hv).
  unfold outcome. cbn [fst snd map]. rewrite concatenate_single.
  now rewrite slice_time_full.
Qed.

(** X2.  With no interval there is nothing to concatenate: whatever the
    flag, once the buffer is validated (and, under alignment, down-mixed
    and scanned for zero-crossings) [remix] raises [ValueError], and
    under alignment the matcher is not called. *)
Theorem remix_of_no_interval_raises y (align_zeros : bool)
  (m : list sample) (zc : list bool) :
  valid_audio y false = Ok tt ->
  (align_zeros = true -> to_mono y = Ok m /\ zero_crossings m = Ok zc) ->
  outcome (remix y [] align_zeros) = Raise ValueError
  /\ count_calls is_match_events (call_log (remix y [] align_zeros)) = 0%nat.
Proof.
  intros Hv Ha. destruct align_zeros.
  - destruct (Ha eq_refl) as (Hm & Hzc).
    unfold remix, bind, invoke, ret, lift. rewrite Hv, Hm. cbv beta iota.
    rewrite Hzc. split; reflexivity.
  - unfold interval. rewrite (remix_unaligned y [] Hv). split; reflexivity.
Qed.

(** X3.  The validation comes first and alone: when [valid_audio]
    raises, [remix] raises the same error after that one call, whatever
    the intervals and the flag; and without alignment the validation is
    the only outside call that [remix] ever makes. *)
Theorem remix_validates_before_anything_else y ivs :
  (forall (e : exn) (align_zeros : bool),
      valid_audio y false = Raise e ->
      remix y ivs align_zeros = (Raise e, [call_valid_audio y false]))
  /\ call_log (remix y ivs false) = [call_valid_audio y false].
Proof.
  split.
  - intros e az He. unfold remix, bind, invoke. now rewrite He.
  - destruct (valid_audio y false) as [[]|e] eqn:Hv.
    + now rewrite (remix_unaligned y ivs Hv).
    + unfold remix, bind, invoke. now rewrite Hv.
Qed.

(** X4.  Remixing composes: without alignment, the remix of the list
    [a ++ b] is the remix of [a] followed along the time axis by the
    remix of [b]. *)
Theorem remix_of_appended_lists y (a b : list (Z * Z)) :
  valid_audio y false = Ok tt ->
  a <> [] ->
  b <> [] ->
  exists ra rb r,
    outcome (remix y a false) = Ok ra
    /\ outcome (remix y b false) = Ok rb
    /\ outcome (remix y (a ++ b) false) = Ok r
    /\ concat2 ra rb = Ok r.
Proof.
  intros Hv Ha Hb.
  exists (slices_in_order y a), (slices_in_order y b), (slices_in_order y (a ++ b)).
  rewrite !(remix_unaligned y _ Hv). unfold outcome. cbn [fst].
  repeat split; try (apply concatenate_slices; try assumption).
  - intros E. apply app_eq_nil in E. now destruct E.
  - apply concat2_slices_in_order.
Qed.

(** X5.  The shape is kept: on a valid buffer of coherent shape and a
    non-empty list of intervals, with bounds of any kind, the result of
    [remix] is again of coherent shape, every row as long as the time
    axis, both without alignment and, when there is a zero-crossing,
    with it. *)
Theorem remix_result_is_well_shaped y ivs :
  valid_audio y false = Ok tt ->
  well_shaped y ->
  ivs <> [] ->
  (exists out, outcome (remix y ivs false) = Ok out /\ well_shaped out)
  /\ (forall (m : list sample) (zc : list bool),
         to_mono y = Ok m ->
         zero_crossings m = Ok zc ->
         nonzero zc <> [] ->
         exists out, outcome (remix y ivs true) = Ok out /\ well_shaped out).
Proof.
  intros Hv Hw Hivs. split.
  - exists (slices_in_order y ivs). split.
    + rewrite (remix_unaligned y ivs Hv). apply concatenate_slices, Hivs.
    + now apply well_shaped_slices_in_order.
  - intros m zc Hm Hzc Hne.
    exists (slices_in_order y (map (snap_interval (nonzero zc)) ivs)). split.
    + rewrite (remix_aligned y ivs m zc Hv Hm Hzc Hne).
      apply concatenate_slices. destruct ivs; [congruence | discriminate].
    + now apply well_shaped_slices_in_order.
Qed.

(** X6.  An interval that runs backwards, [0 <= end <= start], is no
    error: it contributes the empty slice, with the channels of [y] and
    no sample in any row. *)
Theorem remix_backward_interval_is_empty y (s e : Z) :
  valid_audio y false = Ok tt ->
  0 <= e <= s ->
  outcome (remix y [(s, e)] false) = Ok (slice_time y s e)
  /\ time_len (slice_time y s e) = 0%nat
  /\ n_channels (slice_time y s e) = n_channels y
  /\ Forall (fun r => r = []) (rows_of (slice_time y s e)).
Proof.
  intros Hv H. split; [rewrite (remix_unaligned y _ Hv); reflexivity|].
  destruct y as [l|t rows]; cbn [slice_time time_len n_channels rows_of].
  - rewrite (slice_list_backward l s e H). repeat split. now constructor.
  - rewrite length_map. repeat split; [now apply slice_len_backward|].
    apply Forall_forall. intros r' Hr'.
    apply in_map_iff in Hr' as (r & <- & _). now apply slice_list_backward.
Qed.

End MoreRemix.

(** ** More on alignment *)

Lemma nonzero_from_flagged (b : list bool) :
  forall i z,
    In z (nonzero_from i b) ->
    i <= z < i + Z.of_nat (length b) /\ nth (Z.to_nat (z - i)) b false = true.
Proof.
  induction b as [|x b IH]; intros i z Hin; [contradiction|].
  cbn [nonzero_from] in Hin.
  assert (Hrest : In z (nonzero_from (i + 1) b) ->
                  i <= z < i + Z.of_nat (length (x :: b))
                  /\ nth (Z.to_nat (z - i)) (x :: b) false = true).
  { intros H. apply IH in H as (Hb & Hn). cbn [length]. split; [lia|].
    replace (Z.to_nat (z - i)) with (S (Z.to_nat (z - (i + 1)))) by lia.
    exact Hn. }
  destruct x; [destruct Hin as [<-|Hin]|]; auto.
  cbn [length]. split; [lia|]. now rewrite Z.sub_diag.
Qed.

Lemma flagged_in_nonzero_from (b : list bool) :
  forall i (k : nat),
    (k < length b)%nat -> nth k b false = true ->
    In (i + Z.of_nat k) (nonzero_from i b).
Proof.
  induction b as [|x b IH]; intros i k Hk Hn; [cbn in Hk; lia|].
  cbn [nonzero_from]. destruct k as [|k].
  - cbn in Hn. subst x. left. lia.
  - cbn [nth length] in Hn, Hk.
    replace (i + Z.of_nat (S k)) with ((i + 1) + Z.of_nat k) by lia.
    destruct x; [right|]; apply IH; auto; lia.
Qed.

Lemma snap_in (zeros : list Z) (q : Z) :
  zeros <> [] -> In (snap zeros q) zeros.
Proof.
  intros Hne. unfold snap.
  destruct (nearest_event_nonempty q zeros Hne) as (i & -> & Hlt).
  now apply nth_In.
Qed.

Lemma snap_monotone (zeros : list Z) (q1 q2 : Z) :
  Sorted Z.le zeros -> zeros <> [] -> q1 <= q2 ->
  snap zeros q1 <= snap zeros q2.
Proof.
  intros HS Hne Hq.
  destruct (snap_nearest zeros q1 HS Hne) as (Hin1 & H1).
  destruct (snap_nearest zeros q2 HS Hne) as (Hin2 & H2).
  specialize (H1 _ Hin2). specialize (H2 _ Hin1). lia.
Qed.

Lemma snap_fixed (zeros : list Z) (q : Z) :
  Sorted Z.le zeros -> In q zeros -> snap zeros q = q.
Proof.
  intros HS Hin.
  assert (Hne : zeros <> []) by (intros ->; contradiction).
  destruct (snap_nearest zeros q HS Hne) as (_ & H).
  specialize (H q Hin). lia.
Qed.

Section MoreAlignment.

Context {sample spectrogram scalar dtype : Type}.
Context {svc : Services sample spectrogram scalar dtype}.
Implicit Types (y : AudioBuffer sample) (ivs : list (Z * Z)).

(** X7.  Alignment keeps intervals forward and inside the buffer: when
    the detector's answer is no longer than the time axis and every
    interval has [start <= end], every snapped interval has
    [0 <= start <= end <= n], and the result is as long as the snapped
    intervals together.  (The matcher is the one modelled from the
    specification: nearest candidate, the smaller one on a tie.) *)
Theorem remix_aligned_length_is_sum_of_snapped y ivs
  (m : list sample) (zc : list bool) :
  valid_audio y false = Ok tt ->
  to_mono y = Ok m ->
  zero_crossings m = Ok zc ->
  nonzero zc <> [] ->
  (length zc <= time_len y)%nat ->
  ivs <> [] ->
  Forall (fun iv => fst iv <= snd iv) ivs ->
  exists out,
    outcome (remix y ivs true) = Ok out
    /\ Forall (in_range (time_len y)) (map (snap_interval (nonzero zc)) ivs)
    /\ time_len out
       = list_sum (map interval_len (map (snap_interval (nonzero zc)) ivs)).
Proof.
  intros Hv Hm Hzc Hne Hlen Hivs Hfwd.
  assert (Hr : Forall (in_range (time_len y))
                 (map (snap_interval (nonzero zc)) ivs)).
  { apply Forall_forall. intros iv' Hin.
    apply in_map_iff in Hin as (iv & <- & Hin).
    rewrite Forall_forall in Hfwd. specialize (Hfwd iv Hin).
    pose proof (nonzero_from_flagged zc 0 _ (snap_in (nonzero zc) (fst iv) Hne))
      as (Hs & _).
    pose proof (nonzero_from_flagged zc 0 _ (snap_in (nonzero zc) (snd iv) Hne))
      as (He & _).
    pose proof (snap_monotone (nonzero zc) _ _ (nonzero_sorted zc) Hne Hfwd).
    unfold in_range, snap_interval. cbn [fst snd]. lia. }
  exists (slices_in_order y (map (snap_interval (nonzero zc)) ivs)).
  split; [|split; [exact Hr | now apply time_len_in_range]].
  rewrite (remix_aligned y ivs m zc Hv Hm Hzc Hne).
  apply concatenate_slices. destruct ivs; [congruence | discriminate].
Qed.

(** X8.  Alignment leaves zero-crossings where they are: when every
    bound of every interval is already a zero-crossing of the
    down-mix, [remix] with alignment returns what [remix] without
    alignment returns. *)
Theorem remix_aligned_on_crossings_is_unaligned y ivs
  (m : list sample) (zc : list bool) :
  valid_audio y false = Ok tt ->
  to_mono y = Ok m ->
  zero_crossings m = Ok zc ->
  Forall (fun iv => In (fst iv) (nonzero zc) /\ In (snd iv) (nonzero zc)) ivs ->
  outcome (remix y ivs true) = outcome (remix y ivs false).
Proof.
  intros Hv Hm Hzc Hon.
  rewrite (remix_unaligned y ivs Hv).
  destruct ivs as [|iv ivs].
  - unfold remix, bind, invoke, ret, lift. rewrite Hv, Hm. cbv beta iota.
    rewrite Hzc. reflexivity.
  - assert (Hne : nonzero zc <> []).
    { apply Forall_inv in Hon as (Hin & _). intros E. now rewrite E in Hin. }
    rewrite (remix_aligned y (iv :: ivs) m zc Hv Hm Hzc Hne).
    unfold outcome. cbn [fst]. f_equal. f_equal.
    rewrite <- (map_id (iv :: ivs)) at 2. apply map_ext_in. intros [a b] Hin.
    rewrite Forall_forall in Hon. destruct (Hon _ Hin) as (Ha & Hb).
    unfold snap_interval. cbn [fst snd] in *.
    now rewrite !snap_fixed by auto using nonzero_sorted.
Qed.

(** X9.  The candidates of the alignment are exactly the positions that
    the detector flags, and every bound that alignment produces is one
    of them: a position inside the detector's answer at which the
    answer is true. *)
Theorem aligned_bounds_are_flagged_positions (zc : list bool) :
  (forall z : Z,
      In z (nonzero zc)
      <-> 0 <= z < Z.of_nat (length zc) /\ nth (Z.to_nat z) zc false = true)
  /\ (nonzero zc <> [] ->
      forall iv : Z * Z,
        let iv' := snap_interval (nonzero zc) iv in
        (0 <= fst iv' < Z.of_nat (length zc)
         /\ nth (Z.to_nat (fst iv')) zc false = true)
        /\ (0 <= snd iv' < Z.of_nat (length zc)
            /\ nth (Z.to_nat (snd iv')) zc false = true)).
Proof.
  assert (Hfwd : forall z, In z (nonzero zc) ->
                   0 <= z < Z.of_nat (length zc)
                   /\ nth (Z.to_nat z) zc false = true).
  { intros z Hin. apply (nonzero_from_flagged zc 0) in Hin as (Hb & Hn).
    rewrite Z.sub_0_r in Hn. split; [lia | exact Hn]. }
  split.
  - intros z. split; [apply Hfwd|].
    intros (Hb & Hn). unfold nonzero.
    replace z with (0 + Z.of_nat (Z.to_nat z)) by lia.
    apply flagged_in_nonzero_from; [lia | exact Hn].
  - intros Hne iv iv'. split; apply Hfwd; apply snap_in, Hne.
Qed.

End MoreAlignment.

(** ** More on the transform pipelines *)

Lemma fix_length_same {A : Type} (zero : A) (y : list A) :
  fix_length zero y (length y) = y.
Proof.
  unfold fix_length. rewrite firstn_all, Nat.sub_diag. apply app_nil_r.
Qed.

Lemma nth_fix_length {A : Type} (zero : A) (y : list A) (n i : nat) :
  (i < n)%nat -> nth i (fix_length zero y n) zero = nth i y zero.
Proof.
  intros Hi. unfold fix_length.
  destruct (Nat.lt_ge_cases i (length y)) as [Hlt|Hge].
  - rewrite app_nth1 by (rewrite length_firstn; lia).
    rewrite nth_firstn. apply Nat.ltb_lt in Hi. now rewrite Hi.
  - rewrite app_nth2 by (rewrite length_firstn; lia).
    rewrite nth_repeat. symmetry. now apply nth_overflow.
Qed.

Section MorePipelines.

Context {sample spectrogram scalar dtype : Type}.
Context {svc : Services sample spectrogram scalar dtype}.
Implicit Types (y : list sample) (rate : scalar).

(** X10.  The pipelines raise nothing of their own: an error that
    leaves [hpss], [harmonic] or [percussive] is the error of the
    transform, of the decomposition or of an inverse transform, in the
    order of the calls, and an error that leaves [time_stretch] is the
    error of the transform, of the phase vocoder or of the inverse
    transform. *)
Theorem pipelines_raise_only_service_errors y rate (e : exn) :
  (outcome (hpss y) = Raise e \/ outcome (harmonic y) = Raise e
   \/ outcome (percussive y) = Raise e ->
   stft y = Raise e
   \/ exists s, stft y = Ok s
        /\ (decompose_hpss s = Raise e
            \/ exists sh sp, decompose_hpss s = Ok (sh, sp)
                 /\ (istft sh (dtype_of y) = Raise e
                     \/ istft sp (dtype_of y) = Raise e)))
  /\ (outcome (time_stretch y rate) = Raise e ->
      stft y = Raise e
      \/ exists s, stft y = Ok s
           /\ (phase_vocoder s rate = Raise e
               \/ exists s', phase_vocoder s rate = Ok s'
                    /\ istft s' (dtype_of y) = Raise e)).
Proof.
  rewrite hpss_cases, harmonic_cases, percussive_cases, time_stretch_cases.
  unfold outcome. split.
  - destruct (stft y) as [s|x];
      [|cbn; intros [H|[H|H]]; left; congruence].
    intros H. right. exists s. split; [reflexivity|].
    destruct (decompose_hpss s) as [[sh sp]|x];
      [|cbn in H; left; destruct H as [H|[H|H]]; congruence].
    right. exists sh, sp. split; [reflexivity|].
    destruct (istft sh (dtype_of y)) as [yh|x];
      destruct (istft sp (dtype_of y)) as [yp|x']; cbn in H;
      destruct H as [H|[H|H]]; try discriminate;
      solve [left; congruence | right; congruence].
  - destruct (stft y) as [s|x]; [|cbn; intros H; left; congruence].
    intros H. right. exists s. split; [reflexivity|].
    destruct (phase_vocoder s rate) as [s'|x];
      [|cbn in H; left; congruence].
    right. exists s'. split; [reflexivity|]. exact H.
Qed.

(** X11.  [harmonic] is the first part of [hpss]: whatever the services
    do, the calls of [hpss(y)] begin with the calls of [harmonic(y)],
    and an error of [harmonic(y)] is the error of [hpss(y)]; an error
    of [percussive(y)] makes [hpss(y)] fail as well. *)
Theorem harmonic_is_the_first_part_of_hpss y :
  (exists rest, call_log (hpss y) = call_log (harmonic y) ++ rest)
  /\ (forall e, outcome (harmonic y) = Raise e -> outcome (hpss y) = Raise e)
  /\ (forall e, outcome (percussive y) = Raise e ->
                exists e', outcome (hpss y) = Raise e').
Proof.
  rewrite hpss_cases, harmonic_cases, percussive_cases.
  unfold outcome, call_log.
  destruct (stft y) as [s|x].
  2:{ cbn [fst snd]. split; [exists []; reflexivity|].
      split; intros e H; [congruence | eexists; reflexivity]. }
  destruct (decompose_hpss s) as [[sh sp]|x].
  2:{ cbn [fst snd]. split; [exists []; reflexivity|].
      split; intros e H; [congruence | eexists; reflexivity]. }
  destruct (istft sh (dtype_of y)) as [yh|x].
  2:{ cbn [fst snd]. split; [exists []; reflexivity|].
      split; intros e H; [congruence | eexists; reflexivity]. }
  destruct (istft sp (dtype_of y)) as [yp|x]; cbn [fst snd].
  - split; [eexists; cbn [app]; reflexivity|].
    split; intros e H; discriminate.
  - split; [eexists; cbn [app]; reflexivity|].
    split; intros e H; [discriminate | eexists; reflexivity].
Qed.

(** X12.  Where [pitch_shift] fails: an error of the division
    [-n_steps / bins_per_octave] or of the power leaves before any
    service is called; an error of the stretch leaves with the calls of
    the stretch; an error of the division [sr / rate] leaves after the
    stretch was computed; and in none of these cases is the resampler
    called. *)
Theorem pitch_shift_failures y (sr n_steps bins_per_octave : scalar) (x : exn) :
  (float_div (float_neg n_steps) bins_per_octave = Raise x ->
   pitch_shift y sr n_steps bins_per_octave = (Raise x, []))
  /\ (forall e : scalar,
         float_div (float_neg n_steps) bins_per_octave = Ok e ->
         float_pow2 e = Raise x ->
         pitch_shift y sr n_steps bins_per_octave = (Raise x, []))
  /\ (forall (e : scalar) rate,
         float_div (float_neg n_steps) bins_per_octave = Ok e ->
         float_pow2 e = Ok rate ->
         outcome (time_stretch y rate) = Raise x ->
         pitch_shift y sr n_steps bins_per_octave
         = (Raise x, call_log (time_stretch y rate)))
  /\ (forall (e : scalar) rate (ys : list sample),
         float_div (float_neg n_steps) bins_per_octave = Ok e ->
         float_pow2 e = Ok rate ->
         outcome (time_stretch y rate) = Ok ys ->
         float_div sr rate = Raise x ->
         pitch_shift y sr n_steps bins_per_octave
         = (Raise x, call_log (time_stretch y rate))).
Proof.
  split; [|split; [|split]].
  - intros He. unfold pitch_shift, bind, lift. now rewrite He.
  - intros e He Hp. unfold pitch_shift, bind, lift. rewrite He.
    cbv beta iota. now rewrite Hp.
  - intros e rate He Hp Hts.
    rewrite (pitch_shift_cases y sr n_steps bins_per_octave e rate He Hp).
    now rewrite Hts.
  - intros e rate ys He Hp Hts Hd.
    rewrite (pitch_shift_cases y sr n_steps bins_per_octave e rate He Hp).
    now rewrite Hts, Hd.
Qed.

(** X13.  What the length fix of [hpss] keeps: when the services
    succeed, sample [i < len(y)] of each output is sample [i] of the
    inverted component, or the zero sample past its end; an inverted
    component that already has the length of [y] is returned as it is.
    (The length fix is the one modelled from the specification.) *)
Theorem hpss_keeps_inverted_samples y (s sh sp : spectrogram)
  (yh yp : list sample) :
  stft y = Ok s ->
  decompose_hpss s = Ok (sh, sp) ->
  istft sh (dtype_of y) = Ok yh ->
  istft sp (dtype_of y) = Ok yp ->
  exists h p,
    outcome (hpss y) = Ok (h, p)
    /\ (forall i, (i < length y)%nat ->
                  nth i h zero_sample = nth i yh zero_sample
                  /\ nth i p zero_sample = nth i yp zero_sample)
    /\ (length yh = length y -> h = yh)
    /\ (length yp = length y -> p = yp).
Proof.
  intros Hs Hd Hh Hp. rewrite hpss_cases, Hs, Hd, Hh, Hp.
  eexists _, _. split; [reflexivity|].
  split; [|split].
  - intros i Hi. split; now apply nth_fix_length.
  - intros <-. apply fix_length_same.
  - intros <-. apply fix_length_same.
Qed.

End MorePipelines.

(** ** More runs on the reference instance *)

Section MoreRuns.

Import Mock.

(** X1 at the two-channel buffer. *)
Lemma remix_whole_buffer_is_identity_witness :
  valid_audio stereo false = Ok tt
  /\ well_shaped stereo
  /\ outcome (remix stereo [(0, 6)] false) = Ok stereo.
Proof.
  assert (Hw : well_shaped stereo) by (repeat constructor).
  split; [reflexivity|]. split; [exact Hw|].
  exact (remix_whole_buffer_is_identity (svc := mock_services) stereo eq_refl Hw).
Defined.

(** X2 at the signal with two zero-crossings, under alignment. *)
Lemma remix_of_no_interval_raises_witness :
  valid_audio square false = Ok tt
  /\ to_mono square = Ok (Qs [1; 1; 1; -1; -1; -1; -1; 1; 1; 1])
  /\ zero_crossings (Qs [1; 1; 1; -1; -1; -1; -1; 1; 1; 1]) = Ok zc_square
  /\ outcome (remix square [] true) = Raise ValueError
  /\ count_calls is_match_events (call_log (remix square [] true)) = 0%nat.
Proof.
  split; [reflexivity|]. split; [reflexivity|]. split; [reflexivity|].
  exact (remix_of_no_interval_raises (svc := mock_services) square true
           (Qs [1; 1; 1; -1; -1; -1; -1; 1; 1; 1]) zc_square eq_refl
           (fun _ => conj eq_refl eq_refl)).
Defined.

(** X3 at a buffer whose one row is shorter than its time axis. *)
Lemma remix_validates_before_anything_else_witness :
  valid_audio (Multi 3 [Qs [1; 2]]) false = Raise ParameterError
  /\ remix (Multi 3 [Qs [1; 2]]) [(0, 2)] true
     = (Raise ParameterError, [call_valid_audio (Multi 3 [Qs [1; 2]]) false]).
Proof.
  split; [reflexivity|].
  exact (proj1 (remix_validates_before_anything_else (svc := mock_services)
                  (Multi 3 [Qs [1; 2]]) [(0, 2)])
           ParameterError true eq_refl).
Defined.

(** X4 at the buffer [[0,1,2,3,4,5]]. *)
Lemma remix_of_appended_lists_witness :
  valid_audio ramp false = Ok tt
  /\ exists ra rb r,
       outcome (remix ramp [(0, 2)] false) = Ok ra
       /\ outcome (remix ramp [(4, 6)] false) = Ok rb
       /\ outcome (remix ramp ([(0, 2)] ++ [(4, 6)]) false) = Ok r
       /\ concat2 ra rb = Ok r.
Proof.
  assert (Ha : [(0, 2)] <> []) by discriminate.
  assert (Hb : [(4, 6)] <> []) by discriminate.
  split; [reflexivity|].
  exact (remix_of_appended_lists (svc := mock_services) ramp
           [(0, 2)] [(4, 6)] eq_refl Ha Hb).
Defined.

(** X5 at the two-channel buffer, with an interval that leaves it. *)
Lemma remix_result_is_well_shaped_witness :
  valid_audio stereo false = Ok tt
  /\ well_shaped stereo
  /\ exists out,
       outcome (remix stereo [(4, 10); (-2, 1)] false) = Ok out
       /\ well_shaped out.
Proof.
  assert (Hw : well_shaped stereo) by (repeat constructor).
  assert (Hivs : [(4, 10); (-2, 1)] <> []) by discriminate.
  split; [reflexivity|]. split; [exact Hw|].
  exact (proj1 (remix_result_is_well_shaped (svc := mock_services) stereo
                  [(4, 10); (-2, 1)] eq_refl Hw Hivs)).
Defined.

(** X6 at the interval (4, 2). *)
Lemma remix_backward_interval_is_empty_witness :
  valid_audio ramp false = Ok tt
  /\ 0 <= 2 <= 4
  /\ outcome (remix ramp [(4, 2)] false) = Ok (slice_time ramp 4 2)
  /\ time_len (slice_time ramp 4 2) = 0%nat.
Proof.
  assert (H : 0 <= 2 <= 4) by lia.
  pose proof (remix_backward_interval_is_empty (svc := mock_services)
                ramp 4 2 eq_refl H) as (Hout & Hlen & _).
  split; [reflexivity|]. split; [exact H|]. split; assumption.
Defined.

(** X7 at the signal with zero-crossings at 3 and 7. *)
Lemma remix_aligned_length_is_sum_of_snapped_witness :
  valid_audio square false = Ok tt
  /\ nonzero zc_square = [3; 7]
  /\ (length zc_square <= time_len square)%nat
  /\ exists out,
       outcome (remix square [(0, 6); (4, 9)] true) = Ok out
       /\ Forall (in_range (time_len square))
                 (map (snap_interval (nonzero zc_square)) [(0, 6); (4, 9)])
       /\ time_len out
          = list_sum (map interval_len
                          (map (snap_interval (nonzero zc_square)) [(0, 6); (4, 9)])).
Proof.
  assert (Hne : nonzero zc_square <> []) by discriminate.
  assert (Hlen : (length zc_square <= time_len square)%nat) by (cbn; lia).
  assert (Hivs : [(0, 6); (4, 9)] <> []) by discriminate.
  assert (Hfwd : Forall (fun iv : Z * Z => fst iv <= snd iv) [(0, 6); (4, 9)])
    by (repeat constructor; cbn; lia).
  split; [reflexivity|]. split; [reflexivity|]. split; [exact Hlen|].
  exact (remix_aligned_length_is_sum_of_snapped (svc := mock_services) square
           [(0, 6); (4, 9)] _ zc_square eq_refl eq_refl eq_refl Hne Hlen Hivs Hfwd).
Defined.

(** X8 at the interval (3, 7), whose bounds are the zero-crossings. *)
Lemma remix_aligned_on_crossings_is_unaligned_witness :
  Forall (fun iv => In (fst iv) (nonzero zc_square) /\ In (snd iv) (nonzero zc_square))
         [(3, 7)]
  /\ outcome (remix square [(3, 7)] true) = outcome (remix square [(3, 7)] false)
  /\ outcome (remix square [(3, 7)] false) = Ok (Mono (Qs [-1; -1; -1; -1])).
Proof.
  assert (Hon : Forall (fun iv => In (fst iv) (nonzero zc_square)
                                  /\ In (snd iv) (nonzero zc_square)) [(3, 7)]).
  { constructor; [split; cbn; auto | constructor]. }
  split; [exact Hon|]. split; [|reflexivity].
  exact (remix_aligned_on_crossings_is_unaligned (svc := mock_services) square
           [(3, 7)] _ zc_square eq_refl eq_refl eq_refl Hon).
Defined.

(** X9 at the same detector answer and the interval (0, 5). *)
Lemma aligned_bounds_are_flagged_positions_witness :
  nonzero zc_square <> []
  /\ snap_interval (nonzero zc_square) (0, 5) = (3, 3)
  /\ nth 3 zc_square false = true.
Proof.
  assert (Hne : nonzero zc_square <> []) by discriminate.
  split; [exact Hne|]. split; [reflexivity|].
  exact (proj2 (proj1 (proj2 (aligned_bounds_are_flagged_positions zc_square)
                         Hne (0, 5)))).
Defined.

(** X10 with the inverse transform that fails on the percussive part,
    and at the rate 0. *)
Lemma pipelines_raise_only_service_errors_witness :
  outcome (hpss (svc := flaky_services) (Qs [1; 2; 3])) = Raise ComputationError
  /\ (exists s, mock_stft (Qs [1; 2; 3]) = Ok s
        /\ exists sh sp, mock_decompose s = Ok (sh, sp)
             /\ flaky_istft sp tt = Raise ComputationError)
  /\ outcome (time_stretch (svc := mock_services) (Qs [1; 2; 3]) (0#1))
     = Raise ZeroDivisionError.
Proof.
  assert (H : outcome (hpss (svc := flaky_services) (Qs [1; 2; 3]))
              = Raise ComputationError) by reflexivity.
  split; [exact H|]. split; [|reflexivity].
  destruct (proj1 (pipelines_raise_only_service_errors (svc := flaky_services)
                     (Qs [1; 2; 3]) (0#1) ComputationError) (or_introl H))
    as [Hs | (s & Hs & [Hd | (sh & sp & Hd & [Hh | Hp])])].
  - discriminate Hs.
  - injection Hs as <-. discriminate Hd.
  - injection Hs as <-. injection Hd as <- <-. discriminate Hh.
  - exists s. split; [exact Hs|]. exists sh, sp. split; [exact Hd | exact Hp].
Defined.

(** X11 with the same failing inverse transform: [harmonic] returns,
    [percussive] fails, and [hpss] fails. *)
Lemma harmonic_is_the_first_part_of_hpss_witness :
  outcome (harmonic (svc := flaky_services) (Qs [1; 2; 3])) = Ok (Qs [1; 2; 3])
  /\ outcome (percussive (svc := flaky_services) (Qs [1; 2; 3]))
     = Raise ComputationError
  /\ exists e', outcome (hpss (svc := flaky_services) (Qs [1; 2; 3])) = Raise e'.
Proof.
  split; [reflexivity|]. split; [reflexivity|].
  exact (proj2 (proj2 (harmonic_is_the_first_part_of_hpss (svc := flaky_services)
                         (Qs [1; 2; 3])))
           ComputationError eq_refl).
Defined.

(** X12 at [bins_per_octave = 0]. *)
Lemma pitch_shift_failures_witness :
  float_div (float_neg (12#1)) (0#1) = Raise ZeroDivisionError
  /\ pitch_shift (svc := mock_services) (Qs [1; 2; 3; 4]) (8#1) (12#1) (0#1)
     = (Raise ZeroDivisionError, []).
Proof.
  split; [reflexivity|].
  exact (proj1 (pitch_shift_failures (svc := mock_services)
                  (Qs [1; 2; 3; 4]) (8#1) (12#1) (0#1) ZeroDivisionError)
           eq_refl).
Defined.

(** X13 at a signal of three samples, whose transform has five. *)
Lemma hpss_keeps_inverted_samples_witness :
  stft (Qs [1; 2; 3]) = Ok (Qs [1; 2; 3; 0; 0])
  /\ exists h p,
       outcome (hpss (svc := mock_services) (Qs [1; 2; 3])) = Ok (h, p)
       /\ (forall i, (i < 3)%nat ->
                     nth i h (0#1) = nth i (Qs [1; 2; 3; 0; 0]) (0#1)
                     /\ nth i p (0#1) = nth i (map Qopp (Qs [1; 2; 3; 0; 0])) (0#1)).
Proof.
  split; [reflexivity|].
  destruct (hpss_keeps_inverted_samples (svc := mock_services) (Qs [1; 2; 3])
              _ _ _ _ _ eq_refl eq_refl eq_refl eq_refl)
    as (h & p & Hout & Hnth & _).
  exists h, p. split; [exact Hout | exact Hnth].
Defined.

End MoreRuns.
